(** * A shallow embedding of [scheduler.c]

    The time-triggered cooperative scheduler keeps a static table of
    [MAX_TASKS] task records, a counter of created tasks and a byte of status
    flags.  The embedding follows the C text function by function: the three
    file-scope variables become one record that is threaded through a small
    state-and-fault monad, every table access is a list lookup that faults
    when it leaves the table, and unsigned arithmetic wraps explicitly.

    Embedded: [scheduler_update], [scheduler_init], [scheduler_add_task],
    [scheduler_delete_task] and [scheduler_dispatch_task].  The report printer
    and [scheduler_start], which only read the state, print and halt, are left
    out. *)

From stdpp Require Import base decidable option list strings.
From Stdlib Require Import ZArith Lia.

Local Open Scope Z_scope.

(** ** Machine integers and the bit macros *)

Definition u32 (x : Z) : Z := x mod 2 ^ 32.
Definition u8 (x : Z) : Z := x mod 2 ^ 8.
Definition is_u32 (x : Z) : Prop := 0 <= x < 2 ^ 32.

Definition BIT_SET (reg bit : Z) : Z := u8 (Z.lor reg (Z.shiftl 1 bit)).
Definition BIT_CLEAR (reg bit : Z) : Z := u8 (Z.land reg (Z.lnot (Z.shiftl 1 bit))).
Definition BIT_GET (reg bit : Z) : Z := Z.land (Z.shiftr reg bit) 1.

Definition NULL : Z := 0.

(** ** [sch_sts_t] and [sch_flags_t] *)

Definition SCH_STATUS_OK : Z := 0.
Definition SCH_TASK_CREATE_OK : Z := 1.
Definition SCH_TASK_CREATE_FAIL : Z := 2.
Definition SCH_TASK_DELETE_OK : Z := 3.
Definition SCH_TASK_DELETE_FAIL : Z := 4.
Definition SCH_TO_MUCH_TASK : Z := 5.
Definition SCH_RUN : Z := 6.
Definition SCH_ERROR : Z := -1.

Definition SCH_STATUS_FLAG : Z := 0.
Definition SCH_TASK_CREATE_FLAG : Z := 1.
Definition SCH_TASK_DELETE_FLAG : Z := 2.
Definition SCH_OVERFLOW_TASK_FLAG : Z := 3.
Definition SCH_RUN_FLAG : Z := 4.

(** ** The task record

    Modelled from the spec: the declarations of [scheduler.h] (the status
    enumeration, [task_handler_t], [task_t], [callback_task_t]) are not part
    of the sources at hand.  The five status values are the ones the C file
    names; the specification calls [STOPPED] the neutral value of an empty
    slot, so it is the value of a zero-initialised record.  A callback is
    identified by its address, [NULL] being address zero. *)

Inductive task_status : Set :=
  | STOPPED
  | RUN_ALWAYS
  | READY
  | RUNNING
  | SUSPENDED.

#[global] Instance task_status_eq_dec : EqDecision task_status.
Proof. solve_decision. Defined.

Record task_handler_t : Set := mk_handler {
  index : Z;
  parameter : Z
}.

Record task_t : Set := mk_task {
  ptask : Z;
  task_name : option string;
  delay : Z;
  period : Z;
  status : task_status;
  task_handler : task_handler_t
}.

Definition set_ptask (v : Z) (t : task_t) : task_t :=
  mk_task v (task_name t) (delay t) (period t) (status t) (task_handler t).
Definition set_task_name (v : option string) (t : task_t) : task_t :=
  mk_task (ptask t) v (delay t) (period t) (status t) (task_handler t).
Definition set_delay (v : Z) (t : task_t) : task_t :=
  mk_task (ptask t) (task_name t) v (period t) (status t) (task_handler t).
Definition set_period (v : Z) (t : task_t) : task_t :=
  mk_task (ptask t) (task_name t) (delay t) v (status t) (task_handler t).
Definition set_status (v : task_status) (t : task_t) : task_t :=
  mk_task (ptask t) (task_name t) (delay t) (period t) v (task_handler t).
Definition set_index (v : Z) (t : task_t) : task_t :=
  mk_task (ptask t) (task_name t) (delay t) (period t) (status t)
          (mk_handler v (parameter (task_handler t))).
Definition set_parameter (v : Z) (t : task_t) : task_t :=
  mk_task (ptask t) (task_name t) (delay t) (period t) (status t)
          (mk_handler (index (task_handler t)) v).

(** The all-zero record of static storage. *)
Definition task_zero : task_t :=
  mk_task NULL None 0 0 STOPPED (mk_handler 0 NULL).

(** ** The scheduler state

    [tasks_counter], [scheduler_status] and [task_array] are the three static
    variables.  [calls] is a ghost log: one entry per callback invocation,
    with the callback address, the slot whose handle was passed and the
    contents of that slot at the moment of the call. *)

Record event : Set := Call {
  ev_task : Z;
  ev_index : Z;
  ev_slot : task_t
}.

Record sched : Set := mk_sched {
  tasks_counter : Z;
  scheduler_status : Z;
  task_array : list task_t;
  calls : list event
}.

Definition set_counter (c : Z) (s : sched) : sched :=
  mk_sched c (scheduler_status s) (task_array s) (calls s).
Definition set_flags (f : Z) (s : sched) : sched :=
  mk_sched (tasks_counter s) f (task_array s) (calls s).
Definition set_task_array (l : list task_t) (s : sched) : sched :=
  mk_sched (tasks_counter s) (scheduler_status s) l (calls s).
Definition set_calls (c : list event) (s : sched) : sched :=
  mk_sched (tasks_counter s) (scheduler_status s) (task_array s) c.

(** Table access by a C index: a negative or too large index leaves the
    table. *)
Definition slot (l : list task_t) (i : Z) : option task_t :=
  if decide (0 <= i) then l !! Z.to_nat i else None.

(** ** The state-and-fault monad

    A computation either returns a value and a new state or stops at an
    undefined behaviour of the C program: an access outside [task_array] or a
    call through a null function pointer. *)

Inductive fault : Set := OutOfBounds | NullCall.

Inductive result (A : Type) : Type :=
  | Ok (a : A)
  | Fault (f : fault).
Arguments Ok {A} a.
Arguments Fault {A} f.

Definition M (A : Type) : Type := sched -> result (A * sched).

#[global] Instance M_ret : MRet M := fun A a s => Ok (a, s).
#[global] Instance M_bind : MBind M := fun A B k m s =>
  match m s with
  | Ok (a, s') => k a s'
  | Fault f => Fault f
  end.

Definition get : M sched := fun s => Ok (s, s).
Definition modify (f : sched -> sched) : M unit := fun s => Ok (tt, f s).
Definition crash {A : Type} (f : fault) : M A := fun _ => Fault f.

Definition read_task (i : Z) : M task_t := fun s =>
  match slot (task_array s) i with
  | Some t => Ok (t, s)
  | None => Fault OutOfBounds
  end.

Definition modify_task (i : Z) (f : task_t -> task_t) : M unit := fun s =>
  match slot (task_array s) i with
  | Some t => Ok (tt, set_task_array (<[Z.to_nat i := f t]> (task_array s)) s)
  | None => Fault OutOfBounds
  end.

Definition modify_flags (f : Z -> Z) : M unit :=
  modify (fun s => set_flags (f (scheduler_status s)) s).
Definition modify_counter (f : Z -> Z) : M unit :=
  modify (fun s => set_counter (f (tasks_counter s)) s).

Definition state_of {A : Type} (r : result (A * sched)) : option sched :=
  match r with
  | Ok (_, s) => Some s
  | Fault _ => None
  end.

Section Scheduler.

(** [MAX_TASKS] comes from the missing header and stays a parameter.  The
    task functions live outside the scheduler; [exec f i s] is the state in
    which the callback at address [f], called with the handle of slot [i]
    in state [s], returns. *)
Variable MAX_TASKS : Z.
Variable exec : Z -> Z -> sched -> sched.

(** *** [scheduler_update] *)

Definition update_body (i : Z) : M unit :=
  t ← read_task i;
  if decide (NULL ≠ ptask t) then
    if decide (0 = delay t) then
      (if decide (status t ≠ RUN_ALWAYS ∧ status t ≠ SUSPENDED)
       then modify_task i (set_status READY) else mret tt) ;;
      t ← read_task i;
      if decide (period t > 0)
      then modify_task i (set_delay (period t)) else mret tt
    else modify_task i (set_delay (u32 (delay t - 1)))
  else mret tt.

Fixpoint update_loop (n : nat) (i : Z) : M unit :=
  match n with
  | O => mret tt
  | S n' => update_body i ;; update_loop n' (i + 1)
  end.

Definition scheduler_update : M Z :=
  update_loop (Z.to_nat MAX_TASKS) 0 ;; mret SCH_STATUS_OK.

(** *** [scheduler_delete_task] *)

Definition scheduler_delete_task (i : Z) : M Z :=
  t ← read_task i;
  (if decide (NULL ≠ ptask t) then
     modify_task i (set_ptask NULL) ;;
     modify_task i (set_parameter NULL) ;;
     modify_task i (set_index 0) ;;
     modify_task i (set_delay 0) ;;
     modify_task i (set_status STOPPED) ;;
     modify_counter (fun c => u32 (c - 1))
   else mret tt) ;;
  mret SCH_STATUS_OK.

(** *** [scheduler_init]

    The call [bsp_set_cb_systick (scheduler_update)] hands the tick function
    to the board support package and does not touch the three variables. *)

Fixpoint init_loop (n : nat) (i : Z) : M Z :=
  match n with
  | O => mret SCH_STATUS_OK
  | S n' =>
      r ← scheduler_delete_task i;
      if decide (SCH_STATUS_OK ≠ r) then
        modify_flags (fun f => BIT_SET f SCH_STATUS_FLAG) ;; mret SCH_ERROR
      else init_loop n' (i + 1)
  end.

Definition scheduler_init : M Z :=
  modify (set_counter 0) ;;
  modify (set_flags 0) ;;
  r ← init_loop (Z.to_nat MAX_TASKS) 0;
  (if decide (r = SCH_STATUS_OK) then
     modify_flags (fun f => BIT_CLEAR f SCH_STATUS_FLAG) ;;
     modify_flags (fun f => BIT_CLEAR f SCH_RUN_FLAG)
   else
     modify_flags (fun f => BIT_SET f SCH_STATUS_FLAG) ;;
     modify_flags (fun f => BIT_SET f SCH_RUN_FLAG)) ;;
  mret r.

(** *** [scheduler_add_task] *)

Fixpoint dup_scan (n : nat) (i : Z) (task : Z) : M Z :=
  match n with
  | O => mret SCH_STATUS_OK
  | S n' =>
      t ← read_task i;
      if decide (ptask t = task) then
        modify_flags (fun f => BIT_SET f SCH_TASK_CREATE_FLAG) ;; mret SCH_ERROR
      else dup_scan n' (i + 1) task
  end.

Definition scheduler_add_task
    (task : Z) (name : option string) (task_param d p : Z) : M Z :=
  s ← get;
  if decide (tasks_counter s < MAX_TASKS) then
    r ← dup_scan (Z.to_nat MAX_TASKS) 0 task;
    if decide (SCH_STATUS_OK = r) then
      s ← get;
      modify_task (tasks_counter s) (set_ptask task) ;;
      modify_task (tasks_counter s) (set_task_name name) ;;
      modify_task (tasks_counter s) (set_delay d) ;;
      modify_task (tasks_counter s) (set_period p) ;;
      modify_task (tasks_counter s)
        (set_status (if decide (0 = p) then RUN_ALWAYS else STOPPED)) ;;
      modify_task (tasks_counter s) (set_index (tasks_counter s)) ;;
      modify_task (tasks_counter s) (set_parameter task_param) ;;
      modify_counter (fun c => u32 (c + 1)) ;;
      modify_flags (fun f => BIT_CLEAR f SCH_TASK_CREATE_FLAG) ;;
      mret r
    else mret r
  else
    modify_flags (fun f => BIT_SET f SCH_TASK_CREATE_FLAG) ;;
    modify_flags (fun f => BIT_SET f SCH_STATUS_FLAG) ;;
    mret SCH_ERROR.

(** *** [scheduler_dispatch_task] *)

(** [( *task_array[i].ptask)(&task_array[i].task_handler)]: the call is
    logged, then the callback runs; its effect on the three variables is
    [exec], the log is the scheduler's own. *)
Definition call_task (i : Z) : M unit :=
  t ← read_task i;
  if decide (ptask t = NULL) then crash NullCall
  else
    modify (fun s => set_calls (calls s ++ [Call (ptask t) i t]) s) ;;
    modify (fun s => set_calls (calls s) (exec (ptask t) i s)).

Definition dispatch_body (i : Z) : M unit :=
  t ← read_task i;
  (if decide (status t = RUN_ALWAYS) then call_task i else mret tt) ;;
  t ← read_task i;
  if decide (status t = READY) then
    modify_task i (set_status RUNNING) ;;
    call_task i ;;
    t ← read_task i;
    (if decide (RUNNING = status t)
     then modify_task i (set_status STOPPED) else mret tt) ;;
    t ← read_task i;
    if decide (0 = period t)
    then scheduler_delete_task i ;; mret tt
    else mret tt
  else mret tt.

(** The loop [for (index = 0; index < tasks_counter; index++)] reads
    [tasks_counter] afresh at every test.  The fuel is the number of table
    slots still ahead of [i]: when it is used up [i] equals [MAX_TASKS], and
    a further iteration would read [task_array[MAX_TASKS]]. *)
Fixpoint dispatch_loop (n : nat) (i : Z) : M unit :=
  fun s =>
    if decide (i < tasks_counter s) then
      match n with
      | O => Fault OutOfBounds
      | S n' => (dispatch_body i ;; dispatch_loop n' (i + 1)) s
      end
    else Ok (tt, s).

Definition scheduler_dispatch_task : M unit :=
  dispatch_loop (Z.to_nat MAX_TASKS) 0.

(** *** The static initialisers *)

Definition boot : sched :=
  mk_sched 0 0 (replicate (Z.to_nat MAX_TASKS) task_zero) [].

End Scheduler.

(** * Derived notions

    Closed forms of the loop bodies, the states a client can reach through
    the public functions, and the bookkeeping used in the proofs below. *)

(** What [update_body] does to the record it visits. *)
Definition tick_task (t : task_t) : task_t :=
  if decide (NULL ≠ ptask t) then
    if decide (0 = delay t) then
      let t1 := if decide (status t ≠ RUN_ALWAYS ∧ status t ≠ SUSPENDED)
                then set_status READY t else t in
      if decide (period t1 > 0) then set_delay (period t1) t1 else t1
    else set_delay (u32 (delay t - 1)) t
  else t.

(** The five assignments of [scheduler_delete_task], and their guard. *)
Definition clear_task (t : task_t) : task_t :=
  set_status STOPPED (set_delay 0 (set_index 0 (set_parameter NULL (set_ptask NULL t)))).

Definition wipe_task (t : task_t) : task_t :=
  if decide (NULL ≠ ptask t) then clear_task t else t.

Definition delete_at (n : nat) (t : task_t) (s : sched) : sched :=
  if decide (NULL ≠ ptask t) then
    set_counter (u32 (tasks_counter s - 1))
      (set_task_array (<[n := clear_task t]> (task_array s)) s)
  else s.

(** [task_array[n] = t] as a state update. *)
Definition poke (n : nat) (t : task_t) (s : sched) : sched :=
  set_task_array (<[n := t]> (task_array s)) s.

(** The record [scheduler_add_task] leaves in slot [c]. *)
Definition new_task (c task : Z) (name : option string) (task_param d p : Z) : task_t :=
  mk_task task name d p (if decide (0 = p) then RUN_ALWAYS else STOPPED)
          (mk_handler c task_param).

Definition has_task (task : Z) (l : list task_t) : Prop :=
  Exists (fun t => ptask t = task) l.

#[global] Instance has_task_dec (task : Z) (l : list task_t) :
  Decision (has_task task l).
Proof. unfold has_task. apply _. Defined.

(** Number of slots holding a callback. *)
Fixpoint active_slots (l : list task_t) : Z :=
  match l with
  | [] => 0
  | t :: l' => (if decide (NULL ≠ ptask t) then 1 else 0) + active_slots l'
  end.

(** Number of logged calls made with the handle of slot [i]. *)
Definition calls_at (i : Z) (l : list event) : nat :=
  length (filter (fun e => ev_index e = i) l).

(** An empty slot carries the values [scheduler_delete_task] writes. *)
Definition idle_ok (t : task_t) : Prop :=
  ptask t = NULL ->
  status t = STOPPED /\ delay t = 0 /\
  index (task_handler t) = 0 /\ parameter (task_handler t) = NULL.

(** The fields a tick never writes. *)
Definition same_identity (t t' : task_t) : Prop :=
  ptask t' = ptask t /\ task_name t' = task_name t /\
  period t' = period t /\ task_handler t' = task_handler t.

Definition log_call (e : event) (s : sched) : sched :=
  set_calls (calls s ++ [e]) s.

(** What [dispatch_body] does at slot [n] holding [t] when the callback
    leaves the scheduler alone. *)
Definition dispatch_quiet (n : nat) (t : task_t) (s : sched) : result (unit * sched) :=
  if decide (status t = RUN_ALWAYS) then
    if decide (ptask t = NULL) then Fault NullCall
    else Ok (tt, log_call (Call (ptask t) (Z.of_nat n) t) s)
  else if decide (status t = READY) then
    if decide (ptask t = NULL) then Fault NullCall
    else
      let s1 := poke n (set_status STOPPED t)
                  (log_call (Call (ptask t) (Z.of_nat n) (set_status RUNNING t)) s) in
      Ok (tt, if decide (0 = period t)
              then delete_at n (set_status STOPPED t) s1 else s1)
  else Ok (tt, s).

(** A computation that logs nothing but calls made for slot [i]. *)
Definition logs_at {A : Type} (i : Z) (m : M A) : Prop :=
  forall s a s', m s = Ok (a, s') ->
    exists evs, calls s' = calls s ++ evs /\ Forall (fun e => ev_index e = i) evs.

(** A callback that returns without having touched the scheduler. *)
Definition quiet (exec : Z -> Z -> sched -> sched) : Prop :=
  forall f i s, exec f i s = s.

(** A callback cannot resize the static table. *)
Definition keeps_table (exec : Z -> Z -> sched -> sched) : Prop :=
  forall f i s, length (task_array (exec f i s)) = length (task_array s).

Definition no_exec : Z -> Z -> sched -> sched := fun _ _ s => s.

(** The public calls a client sequences during set-up. *)
Inductive api_call : Set :=
  | Register (task : Z) (name : option string) (task_param d p : Z)
  | Remove (i : Z).

Section Specification.

Variable MAX_TASKS : Z.
Variable exec : Z -> Z -> sched -> sched.

(** The table has [MAX_TASKS] entries: [task_t task_array[MAX_TASKS]]. *)
Definition table_ok (s : sched) : Prop :=
  length (task_array s) = Z.to_nat MAX_TASKS.

Definition consistent (s : sched) : Prop :=
  table_ok s /\ is_u32 (tasks_counter s) /\
  Forall idle_ok (task_array s) /\
  active_slots (task_array s) <= tasks_counter s.

(** [n] calls of the tick function in a row. *)
Fixpoint ticks (n : nat) : M unit :=
  match n with
  | O => mret tt
  | S n' => ticks n' ;; scheduler_update MAX_TASKS ;; mret tt
  end.

Definition perform (c : api_call) : M Z :=
  match c with
  | Register task name task_param d p =>
      scheduler_add_task MAX_TASKS task name task_param d p
  | Remove i => scheduler_delete_task i
  end.

Fixpoint perform_all (cs : list api_call) : M unit :=
  match cs with
  | [] => mret tt
  | c :: cs' => perform c ;; perform_all cs'
  end.

Definition in_table (c : api_call) : Prop :=
  match c with
  | Register _ _ _ _ _ => True
  | Remove i => 0 <= i < MAX_TASKS
  end.

(** One completed call of a public function or of the tick handler. *)
Inductive step (s s' : sched) : Prop :=
  | step_init r :
      scheduler_init MAX_TASKS s = Ok (r, s') -> step s s'
  | step_add task name task_param d p r :
      scheduler_add_task MAX_TASKS task name task_param d p s = Ok (r, s') ->
      step s s'
  | step_delete i r :
      scheduler_delete_task i s = Ok (r, s') -> step s s'
  | step_tick r :
      scheduler_update MAX_TASKS s = Ok (r, s') -> step s s'
  | step_dispatch :
      scheduler_dispatch_task MAX_TASKS exec s = Ok (tt, s') -> step s s'.

Inductive reachable : sched -> Prop :=
  | reachable_boot : reachable (boot MAX_TASKS)
  | reachable_step s s' : reachable s -> step s s' -> reachable s'.

End Specification.

(** ** A small table for worked examples: capacity 4, two tasks registered *)

Definition demo_continuous : task_t :=
  mk_task 100 (Some "A"%string) 0 0 RUN_ALWAYS (mk_handler 0 7).

Definition demo_periodic : task_t :=
  mk_task 200 (Some "B"%string) 0 5 STOPPED (mk_handler 1 8).

Definition demo_ready : task_t :=
  mk_task 200 (Some "B"%string) 5 5 READY (mk_handler 1 8).

Definition demo_sched : sched :=
  mk_sched 2 0 [demo_continuous; demo_periodic; task_zero; task_zero] [].

Definition demo_sched_ready : sched :=
  mk_sched 2 0 [demo_continuous; demo_ready; task_zero; task_zero] [].

Definition demo_registered : sched :=
  mk_sched 1 0
    [mk_task 200 (Some "B"%string) 2 5 STOPPED (mk_handler 0 8);
     task_zero; task_zero; task_zero] [].

(** ** [scheduler_report_status] and [scheduler_start]

    The report prints through the external log macros; what matters to the
    scheduler is that its loop reads [task_array[index]] for every index below
    [tasks_counter].  [scheduler_start] either returns or spins in
    [while (1)]. *)

Fixpoint report_loop (n : nat) (i : Z) : M unit :=
  fun s =>
    if decide (i < tasks_counter s) then
      match n with
      | O => Fault OutOfBounds
      | S n' => (read_task i ;; report_loop n' (i + 1)) s
      end
    else Ok (tt, s).

Inductive start_result : Set :=
  | Returned (r : Z) (s : sched)
  | Halted (s : sched)
  | Faulted (f : fault).

Section Start.

Variable MAX_TASKS : Z.

Definition scheduler_report_status : M unit :=
  report_loop (Z.to_nat MAX_TASKS) 0.

Definition start_condition (s : sched) : Prop :=
  SCH_STATUS_OK = BIT_GET (scheduler_status s) SCH_STATUS_FLAG /\
  SCH_STATUS_OK = BIT_GET (scheduler_status s) SCH_OVERFLOW_TASK_FLAG /\
  SCH_STATUS_OK = BIT_GET (scheduler_status s) SCH_TASK_CREATE_FLAG /\
  SCH_STATUS_OK = BIT_GET (scheduler_status s) SCH_TASK_DELETE_FLAG /\
  SCH_STATUS_OK = BIT_GET (scheduler_status s) SCH_RUN_FLAG /\
  tasks_counter s > 0 /\
  tasks_counter s <= MAX_TASKS.

#[global] Instance start_condition_dec (s : sched) : Decision (start_condition s).
Proof. unfold start_condition. apply _. Defined.

Definition scheduler_start (s : sched) : start_result :=
  let ret := if decide (start_condition s) then SCH_STATUS_OK else SCH_ERROR in
  let s1 := if decide (start_condition s)
            then set_flags (BIT_CLEAR (scheduler_status s) SCH_RUN_FLAG) s
            else s in
  match scheduler_report_status s1 with
  | Fault f => Faulted f
  | Ok (_, s2) =>
      if decide (SCH_STATUS_OK ≠ ret) then Halted s2 else Returned ret s2
  end.

End Start.

(** ** One dispatch pass when the callbacks leave the scheduler alone *)

(** The slot after the pass has visited it, and the calls logged for it. *)
Definition settle (t : task_t) : task_t :=
  if decide (status t = READY) then set_status STOPPED t else t.

Definition events_of (i : Z) (t : task_t) : list event :=
  if decide (status t = RUN_ALWAYS) then [Call (ptask t) i t]
  else if decide (status t = READY) then [Call (ptask t) i (set_status RUNNING t)]
  else [].

Fixpoint pass_events (i : Z) (l : list task_t) : list event :=
  match l with
  | [] => []
  | t :: l' => events_of i t ++ pass_events (i + 1) l'
  end.

(** The scan from index [i] over the slots [l] that lie ahead, with the task
    counter at [c]: the slots as the scan leaves them and the calls it logs,
    or nothing when the scan runs off the table. *)
Fixpoint pass (i c : Z) (l : list task_t) : option (list task_t * list event) :=
  if decide (i < c) then
    match l with
    | [] => None
    | t :: l' =>
        match pass (i + 1) c l' with
        | Some (l'', evs) => Some (settle t :: l'', events_of i t ++ evs)
        | None => None
        end
    end
  else Some (l, []).

(** A slot the pass can visit without a null call and without the removal
    branch. *)
Definition callable (t : task_t) : Prop :=
  (status t = RUN_ALWAYS \/ status t = READY -> ptask t ≠ NULL) /\
  (status t = READY -> period t ≠ 0).

(** ** Further invariants of the reachable states *)

(** A registered task is continuous (period 0, [RUN_ALWAYS]) or periodic
    (nonzero period, [STOPPED] or [READY]). *)
Definition kind_ok (t : task_t) : Prop :=
  NULL ≠ ptask t ->
  (period t = 0 /\ status t = RUN_ALWAYS) \/
  (period t ≠ 0 /\ (status t = STOPPED \/ status t = READY)).

(** The handle of a registered task carries the index of its slot. *)
Definition indexed (l : list task_t) : Prop :=
  forall n t, l !! n = Some t -> NULL ≠ ptask t ->
              index (task_handler t) = Z.of_nat n.

(** No callback is registered in two slots. *)
Definition unique (l : list task_t) : Prop :=
  forall i j ti tj,
    l !! i = Some ti -> l !! j = Some tj ->
    NULL ≠ ptask ti -> ptask ti = ptask tj -> i = j.

(** Two tables with the same callbacks and handle indices, slot by slot. *)
Definition same_tasks (l l' : list task_t) : Prop :=
  Forall2 (fun t t' => ptask t' = ptask t /\
                       index (task_handler t') = index (task_handler t)) l l'.

Definition sound (MAX_TASKS : Z) (s : sched) : Prop :=
  consistent MAX_TASKS s /\
  Forall kind_ok (task_array s) /\
  indexed (task_array s) /\
  unique (task_array s).

(** Calls after which the status flag set by a refused registration is still
    set: everything but [scheduler_init]. *)
Inductive runs (MAX_TASKS : Z) (exec : Z -> Z -> sched -> sched) :
    sched -> sched -> Prop :=
  | runs_refl s : runs MAX_TASKS exec s s
  | runs_add s s1 s2 task name task_param d p r :
      scheduler_add_task MAX_TASKS task name task_param d p s = Ok (r, s1) ->
      runs MAX_TASKS exec s1 s2 -> runs MAX_TASKS exec s s2
  | runs_delete s s1 s2 i r :
      scheduler_delete_task i s = Ok (r, s1) ->
      runs MAX_TASKS exec s1 s2 -> runs MAX_TASKS exec s s2
  | runs_tick s s1 s2 r :
      scheduler_update MAX_TASKS s = Ok (r, s1) ->
      runs MAX_TASKS exec s1 s2 -> runs MAX_TASKS exec s s2
  | runs_dispatch s s1 s2 :
      scheduler_dispatch_task MAX_TASKS exec s = Ok (tt, s1) ->
      runs MAX_TASKS exec s1 s2 -> runs MAX_TASKS exec s s2.

(** The status flag, bit [SCH_STATUS_FLAG] of [scheduler_status], is set. *)
Definition status_flag_set (s : sched) : Prop :=
  Z.testbit (scheduler_status s) SCH_STATUS_FLAG = true.

(** A computation that, when it returns, has kept a property of the state. *)
Definition preserves {A : Type} (P : sched -> Prop) (m : M A) : Prop :=
  forall s a s', m s = Ok (a, s') -> P s -> P s'.

(** The registered tasks are exactly the slots below the task counter. *)
Definition packed (s : sched) : Prop :=
  forall n t, task_array s !! n = Some t ->
              (ptask t ≠ NULL <-> Z.of_nat n < tasks_counter s).

(** The states reached when tasks are only ever removed in the reverse order
    of their registration: the slot removed is the one just below the task
    counter. *)
Inductive reachable_lifo (MAX_TASKS : Z) (exec : Z -> Z -> sched -> sched) :
    sched -> Prop :=
  | lifo_boot : reachable_lifo MAX_TASKS exec (boot MAX_TASKS)
  | lifo_add s s' task name task_param d p r :
      reachable_lifo MAX_TASKS exec s ->
      scheduler_add_task MAX_TASKS task name task_param d p s = Ok (r, s') ->
      reachable_lifo MAX_TASKS exec s'
  | lifo_delete s s' r :
      reachable_lifo MAX_TASKS exec s ->
      scheduler_delete_task (tasks_counter s - 1) s = Ok (r, s') ->
      reachable_lifo MAX_TASKS exec s'
  | lifo_tick s s' r :
      reachable_lifo MAX_TASKS exec s ->
      scheduler_update MAX_TASKS s = Ok (r, s') ->
      reachable_lifo MAX_TASKS exec s'
  | lifo_dispatch s s' :
      reachable_lifo MAX_TASKS exec s ->
      scheduler_dispatch_task MAX_TASKS exec s = Ok (tt, s') ->
      reachable_lifo MAX_TASKS exec s'.

(** A one-slot table that is full, before and after a refused registration. *)
Definition demo_full : sched :=
  mk_sched 1 0 [mk_task 200 (Some "B"%string) 2 5 STOPPED (mk_handler 0 8)] [].

Definition demo_full_refused : sched :=
  mk_sched 1 3 [mk_task 200 (Some "B"%string) 2 5 STOPPED (mk_handler 0 8)] [].

(** ** Callbacks that use the scheduler

    A callback has no access to the three static variables; what it can do
    to them is call the public functions, and the tick may fire while it
    runs.  [api_steps s s'] says that [s'] comes from [s] by any number of
    completed calls of [scheduler_init], [scheduler_add_task],
    [scheduler_delete_task] and the tick. *)
Inductive api_steps (MAX_TASKS : Z) : sched -> sched -> Prop :=
  | api_done s : api_steps MAX_TASKS s s
  | api_init s s1 s2 r :
      scheduler_init MAX_TASKS s = Ok (r, s1) ->
      api_steps MAX_TASKS s1 s2 -> api_steps MAX_TASKS s s2
  | api_add s s1 s2 task name task_param d p r :
      scheduler_add_task MAX_TASKS task name task_param d p s = Ok (r, s1) ->
      api_steps MAX_TASKS s1 s2 -> api_steps MAX_TASKS s s2
  | api_delete s s1 s2 i r :
      scheduler_delete_task i s = Ok (r, s1) ->
      api_steps MAX_TASKS s1 s2 -> api_steps MAX_TASKS s s2
  | api_tick s s1 s2 r :
      scheduler_update MAX_TASKS s = Ok (r, s1) ->
      api_steps MAX_TASKS s1 s2 -> api_steps MAX_TASKS s s2.

Definition through_api (MAX_TASKS : Z) (exec : Z -> Z -> sched -> sched) : Prop :=
  forall f i s, api_steps MAX_TASKS s (exec f i s).

(** The example table after task A (period 5) was registered in slot 0 and
    removed again. *)
Definition demo_removed : sched :=
  mk_sched 0 0
    [mk_task NULL (Some "A"%string) 0 5 STOPPED (mk_handler 0 NULL);
     task_zero; task_zero; task_zero] [].
(** * Reasoning principles *)

(** ** Table access *)

Lemma slot_nat (l : list task_t) (n : nat) : slot l (Z.of_nat n) = l !! n.
Proof.
  unfold slot. destruct (decide (0 <= Z.of_nat n)) as [_|Hneg]; [|lia].
  by rewrite Nat2Z.id.
Qed.

Lemma slot_Some (l : list task_t) (i : Z) (t : task_t) :
  slot l i = Some t -> 0 <= i /\ l !! Z.to_nat i = Some t.
Proof. unfold slot. destruct (decide (0 <= i)); [done|discriminate]. Qed.

Lemma slot_None_ge (l : list task_t) (i : Z) :
  Z.of_nat (length l) <= i -> slot l i = None.
Proof.
  intros Hi. unfold slot. destruct (decide (0 <= i)); [|done].
  apply lookup_ge_None. lia.
Qed.

Lemma insert_middle {A : Type} (l1 l2 : list A) (x y : A) :
  <[length l1 := y]> (l1 ++ x :: l2) = l1 ++ y :: l2.
Proof.
  rewrite insert_app_r_alt by lia. by rewrite Nat.sub_diag.
Qed.

Lemma set_task_array_twice (l l' : list task_t) (s : sched) :
  set_task_array l' (set_task_array l s) = set_task_array l' s.
Proof. reflexivity. Qed.

Lemma set_task_array_same (s : sched) : set_task_array (task_array s) s = s.
Proof. by destruct s. Qed.

(** Unfolding of the monad operations, one layer at a time. *)
Ltac mstep := unfold mbind, M_bind, mret, M_ret; cbn beta iota.

Lemma read_task_lookup (s : sched) (n : nat) (t : task_t) :
  task_array s !! n = Some t -> read_task (Z.of_nat n) s = Ok (t, s).
Proof. intros H. unfold read_task. by rewrite slot_nat, H. Qed.

Lemma modify_task_lookup (s : sched) (n : nat) (t : task_t) (f : task_t -> task_t) :
  task_array s !! n = Some t ->
  modify_task (Z.of_nat n) f s
  = Ok (tt, set_task_array (<[n := f t]> (task_array s)) s).
Proof. intros H. unfold modify_task. by rewrite slot_nat, H, Nat2Z.id. Qed.

Lemma read_task_oob (s : sched) (i : Z) :
  Z.of_nat (length (task_array s)) <= i -> read_task i s = Fault OutOfBounds.
Proof. intros H. unfold read_task. by rewrite slot_None_ge. Qed.

(** ** One tick, slot by slot *)

Lemma update_body_middle (s : sched) (l1 l2 : list task_t) (t : task_t) :
  task_array s = l1 ++ t :: l2 ->
  update_body (Z.of_nat (length l1)) s
  = Ok (tt, set_task_array (l1 ++ tick_task t :: l2) s).
Proof.
  intros Hl.
  assert (Hlk : task_array s !! length l1 = Some t)
    by (rewrite Hl; by apply list_lookup_middle).
  unfold update_body, tick_task. mstep.
  rewrite (read_task_lookup _ _ _ Hlk).
  destruct (decide (NULL ≠ ptask t)) as [Hact|Hidle].
  - destruct (decide (0 = delay t)) as [Hz|Hnz].
    + destruct (decide (status t ≠ RUN_ALWAYS ∧ status t ≠ SUSPENDED)) as [Hst|Hst].
      * rewrite (modify_task_lookup _ _ _ _ Hlk).
        rewrite Hl, insert_middle.
        assert (Hlk' : task_array (set_task_array (l1 ++ set_status READY t :: l2) s)
                         !! length l1 = Some (set_status READY t))
          by (by apply list_lookup_middle).
        rewrite (read_task_lookup _ _ _ Hlk'). cbn [period set_status].
        destruct (decide (period t > 0)); [|done].
        rewrite (modify_task_lookup _ _ _ _ Hlk'). cbn [task_array set_task_array].
        by rewrite insert_middle.
      * rewrite (read_task_lookup _ _ _ Hlk).
        destruct (decide (period t > 0)).
        -- rewrite (modify_task_lookup _ _ _ _ Hlk). by rewrite Hl, insert_middle.
        -- by rewrite <- Hl, set_task_array_same.
    + rewrite (modify_task_lookup _ _ _ _ Hlk). by rewrite Hl, insert_middle.
  - by rewrite <- Hl, set_task_array_same.
Qed.

Lemma update_loop_run (l2 l1 : list task_t) (s : sched) :
  task_array s = l1 ++ l2 ->
  update_loop (length l2) (Z.of_nat (length l1)) s
  = Ok (tt, set_task_array (l1 ++ (tick_task <$> l2)) s).
Proof.
  revert l1 s. induction l2 as [|t l2 IH]; intros l1 s Hl.
  - cbn. rewrite <- Hl. by rewrite set_task_array_same.
  - cbn [length update_loop fmap list_fmap]. mstep.
    rewrite (update_body_middle _ _ _ _ Hl).
    replace (Z.of_nat (length l1) + 1) with (Z.of_nat (length (l1 ++ [tick_task t])))
      by (rewrite length_app; cbn; lia).
    rewrite (IH (l1 ++ [tick_task t])).
    + rewrite set_task_array_twice. by rewrite <- app_assoc.
    + cbn. by rewrite <- app_assoc.
Qed.

Section SchedulerFacts.

Variable MAX_TASKS : Z.
Variable exec : Z -> Z -> sched -> sched.

Lemma scheduler_update_run (s : sched) :
  table_ok MAX_TASKS s ->
  scheduler_update MAX_TASKS s
  = Ok (SCH_STATUS_OK, set_task_array (tick_task <$> task_array s) s).
Proof.
  intros Hok. unfold scheduler_update. mstep.
  rewrite <- Hok.
  pose proof (update_loop_run (task_array s) [] s eq_refl) as Hrun.
  cbn [length app] in Hrun. change (Z.of_nat 0) with 0 in Hrun.
  by rewrite Hrun.
Qed.

End SchedulerFacts.

(** ** Writes to one slot *)

Lemma modify_task_poke (s : sched) (n : nat) (t : task_t) (f : task_t -> task_t) :
  task_array s !! n = Some t ->
  modify_task (Z.of_nat n) f s = Ok (tt, poke n (f t) s).
Proof. apply modify_task_lookup. Qed.

Lemma lookup_poke (s : sched) (n : nat) (t : task_t) :
  (n < length (task_array s))%nat -> task_array (poke n t s) !! n = Some t.
Proof. intros H. cbn. by apply list_lookup_insert_eq. Qed.

Lemma poke_poke (s : sched) (n : nat) (t1 t2 : task_t) :
  poke n t2 (poke n t1 s) = poke n t2 s.
Proof. unfold poke. cbn. by rewrite list_insert_insert_eq. Qed.

Lemma modify_task_poked (s : sched) (n : nat) (t : task_t) (f : task_t -> task_t) :
  (n < length (task_array s))%nat ->
  modify_task (Z.of_nat n) f (poke n t s) = Ok (tt, poke n (f t) s).
Proof.
  intros H. rewrite (modify_task_poke _ _ t) by (by apply lookup_poke).
  by rewrite poke_poke.
Qed.

Lemma read_task_poked (s : sched) (n : nat) (t : task_t) :
  (n < length (task_array s))%nat ->
  read_task (Z.of_nat n) (poke n t s) = Ok (t, poke n t s).
Proof. intros H. apply read_task_lookup. by apply lookup_poke. Qed.

Lemma poke_same (s : sched) (n : nat) (t : task_t) :
  task_array s !! n = Some t -> poke n t s = s.
Proof.
  intros H. unfold poke. rewrite list_insert_id by done.
  apply set_task_array_same.
Qed.

(** ** [scheduler_delete_task] *)

Lemma delete_task_lookup (s : sched) (n : nat) (t : task_t) :
  task_array s !! n = Some t ->
  scheduler_delete_task (Z.of_nat n) s = Ok (SCH_STATUS_OK, delete_at n t s).
Proof.
  intros Hlk. pose proof (lookup_lt_Some _ _ _ Hlk) as Hlt.
  unfold scheduler_delete_task, delete_at. mstep.
  rewrite (read_task_lookup _ _ _ Hlk).
  destruct (decide (NULL ≠ ptask t)); [|done].
  rewrite (modify_task_poke _ _ _ _ Hlk).
  rewrite !modify_task_poked by done.
  reflexivity.
Qed.

Lemma delete_task_oob (s : sched) (i : Z) :
  Z.of_nat (length (task_array s)) <= i ->
  scheduler_delete_task i s = Fault OutOfBounds.
Proof.
  intros H. unfold scheduler_delete_task. mstep. by rewrite read_task_oob.
Qed.

Lemma u32_range (x : Z) : is_u32 (u32 x).
Proof. unfold is_u32, u32. apply Z.mod_pos_bound. lia. Qed.

Lemma u32_id (x : Z) : is_u32 x -> u32 x = x.
Proof. unfold is_u32, u32. intros H. by apply Z.mod_small. Qed.

Lemma u32_sub_sub (c k : Z) : u32 (u32 (c - 1) - k) = u32 (c - (1 + k)).
Proof.
  unfold u32. rewrite Zminus_mod_idemp_l. f_equal. lia.
Qed.

(** ** [scheduler_init] *)

Lemma init_loop_run (l2 l1 : list task_t) (s : sched) :
  task_array s = l1 ++ l2 ->
  is_u32 (tasks_counter s) ->
  init_loop (length l2) (Z.of_nat (length l1)) s
  = Ok (SCH_STATUS_OK,
        set_counter (u32 (tasks_counter s - active_slots l2))
          (set_task_array (l1 ++ (wipe_task <$> l2)) s)).
Proof.
  revert l1 s. induction l2 as [|t l2 IH]; intros l1 s Hl Hc.
  - cbn. rewrite Z.sub_0_r, u32_id by done. rewrite <- Hl.
    by destruct s.
  - cbn [length init_loop fmap list_fmap active_slots]. mstep.
    assert (Hlk : task_array s !! length l1 = Some t)
      by (rewrite Hl; by apply list_lookup_middle).
    rewrite (delete_task_lookup _ _ _ Hlk).
    destruct (decide (SCH_STATUS_OK ≠ SCH_STATUS_OK)) as [Hne|_]; [done|].
    replace (Z.of_nat (length l1) + 1) with (Z.of_nat (length (l1 ++ [wipe_task t])))
      by (rewrite length_app; cbn; lia).
    rewrite (IH (l1 ++ [wipe_task t])).
    + f_equal. f_equal. unfold delete_at, wipe_task.
      destruct (decide (NULL ≠ ptask t)); cbn.
      * rewrite u32_sub_sub. by rewrite <- app_assoc.
      * rewrite Z.add_0_l. by rewrite <- app_assoc.
    + unfold delete_at, wipe_task.
      destruct (decide (NULL ≠ ptask t)); cbn.
      * rewrite Hl, insert_middle. by rewrite <- app_assoc.
      * rewrite Hl. by rewrite <- app_assoc.
    + unfold delete_at. destruct (decide (NULL ≠ ptask t)); [|done].
      cbn. apply u32_range.
Qed.

(** ** The duplicate scan of [scheduler_add_task] *)

Lemma dup_scan_run (task : Z) (l2 l1 : list task_t) (s : sched) :
  task_array s = l1 ++ l2 ->
  dup_scan (length l2) (Z.of_nat (length l1)) task s
  = if decide (has_task task l2)
    then Ok (SCH_ERROR,
             set_flags (BIT_SET (scheduler_status s) SCH_TASK_CREATE_FLAG) s)
    else Ok (SCH_STATUS_OK, s).
Proof.
  revert l1. induction l2 as [|t l2 IH]; intros l1 Hl.
  - cbn. destruct (decide (has_task task [])) as [H|_]; [|done].
    unfold has_task in H. by apply Exists_nil in H.
  - cbn [length dup_scan]. mstep.
    assert (Hlk : task_array s !! length l1 = Some t)
      by (rewrite Hl; by apply list_lookup_middle).
    rewrite (read_task_lookup _ _ _ Hlk).
    destruct (decide (ptask t = task)) as [Heq|Hne].
    + destruct (decide (has_task task (t :: l2))) as [_|H]; [done|].
      exfalso. apply H. by apply Exists_cons_hd.
    + replace (Z.of_nat (length l1) + 1) with (Z.of_nat (length (l1 ++ [t])))
        by (rewrite length_app; cbn; lia).
      rewrite (IH (l1 ++ [t])) by (by rewrite <- app_assoc).
      destruct (decide (has_task task l2)) as [H|H];
        destruct (decide (has_task task (t :: l2))) as [H'|H']; try done.
      * exfalso. apply H'. by apply Exists_cons_tl.
      * exfalso. unfold has_task in H'. apply Exists_cons in H'.
        destruct H' as [H'|H']; [done|]. by apply H.
Qed.

(** ** Counting the occupied slots *)

Lemma active_slots_nonneg (l : list task_t) : 0 <= active_slots l.
Proof. induction l as [|t l IH]; cbn; [lia|]. destruct (decide _); lia. Qed.

Lemma active_slots_le_length (l : list task_t) :
  active_slots l <= Z.of_nat (length l).
Proof. induction l as [|t l IH]; cbn; [lia|]. destruct (decide _); lia. Qed.

Lemma active_slots_insert (l : list task_t) (n : nat) (t t' : task_t) :
  l !! n = Some t ->
  active_slots (<[n := t']> l)
  = active_slots l - (if decide (NULL ≠ ptask t) then 1 else 0)
    + (if decide (NULL ≠ ptask t') then 1 else 0).
Proof.
  revert n. induction l as [|x l IH]; intros n Hlk; [done|].
  destruct n as [|n].
  - cbn in Hlk. inversion Hlk; subst. cbn. lia.
  - change (<[S n := t']> (x :: l)) with (x :: <[n := t']> l).
    cbn [active_slots]. rewrite (IH n Hlk). lia.
Qed.

Lemma active_slots_fmap (f : task_t -> task_t) (l : list task_t) :
  (forall t, ptask (f t) = ptask t) ->
  active_slots (f <$> l) = active_slots l.
Proof.
  intros Hf. induction l as [|t l IH]; cbn; [done|].
  rewrite Hf, IH. done.
Qed.

Lemma active_slots_wipe (l : list task_t) : active_slots (wipe_task <$> l) = 0.
Proof.
  induction l as [|t l IH]; cbn; [done|]. rewrite IH.
  unfold wipe_task. destruct (decide (NULL ≠ ptask t)) as [H|H]; cbn.
  - destruct (decide (NULL ≠ NULL)); [done|lia].
  - destruct (decide (NULL ≠ ptask t)); [done|lia].
Qed.

(** A table without an empty slot is full. *)
Lemma active_slots_full (l : list task_t) :
  ¬ has_task NULL l -> active_slots l = Z.of_nat (length l).
Proof.
  unfold has_task. induction l as [|t l IH]; intros H; cbn; [done|].
  rewrite IH by (intros H'; apply H; by apply Exists_cons_tl).
  destruct (decide (NULL ≠ ptask t)) as [_|Hn]; [lia|].
  exfalso. apply H. apply Exists_cons_hd.
  destruct (decide (ptask t = NULL)); [done|]. exfalso. apply Hn. congruence.
Qed.

Lemma ptask_tick_task (t : task_t) : ptask (tick_task t) = ptask t.
Proof.
  unfold tick_task. repeat (destruct (decide _); cbn); done.
Qed.

Lemma idle_ok_tick_task (t : task_t) : idle_ok t -> idle_ok (tick_task t).
Proof.
  unfold tick_task. destruct (decide (NULL ≠ ptask t)) as [H|H]; [|done].
  intros _ Hn. pose proof (ptask_tick_task t) as Hp.
  unfold tick_task in Hp. destruct (decide (NULL ≠ ptask t)); [|done].
  congruence.
Qed.

Section RunLemmas.

Variable MAX_TASKS : Z.

Lemma scheduler_init_run (s : sched) :
  table_ok MAX_TASKS s ->
  scheduler_init MAX_TASKS s
  = Ok (SCH_STATUS_OK,
        mk_sched (u32 (0 - active_slots (task_array s))) 0
                 (wipe_task <$> task_array s) (calls s)).
Proof.
  intros Hok. unfold scheduler_init. mstep. unfold modify at 1 2.
  rewrite <- Hok.
  pose proof (init_loop_run (task_array s) [] (set_flags 0 (set_counter 0 s))
                eq_refl) as Hrun.
  cbn [length app] in Hrun. change (Z.of_nat 0) with 0 in Hrun.
  change (task_array (set_flags 0 (set_counter 0 s))) with (task_array s) in Hrun.
  rewrite Hrun by (cbn; unfold is_u32; lia).
  destruct (decide (SCH_STATUS_OK = SCH_STATUS_OK)); [|done].
  reflexivity.
Qed.

Lemma scheduler_add_task_run (s : sched) (task : Z) (name : option string)
    (task_param d p : Z) :
  table_ok MAX_TASKS s ->
  scheduler_add_task MAX_TASKS task name task_param d p s
  = if decide (tasks_counter s < MAX_TASKS) then
      if decide (has_task task (task_array s)) then
        Ok (SCH_ERROR,
            set_flags (BIT_SET (scheduler_status s) SCH_TASK_CREATE_FLAG) s)
      else if decide (0 <= tasks_counter s) then
        Ok (SCH_STATUS_OK,
            set_flags (BIT_CLEAR (scheduler_status s) SCH_TASK_CREATE_FLAG)
              (set_counter (u32 (tasks_counter s + 1))
                 (poke (Z.to_nat (tasks_counter s))
                    (new_task (tasks_counter s) task name task_param d p) s)))
      else Fault OutOfBounds
    else
      Ok (SCH_ERROR,
          set_flags (BIT_SET (BIT_SET (scheduler_status s) SCH_TASK_CREATE_FLAG)
                             SCH_STATUS_FLAG) s).
Proof.
  intros Hok. unfold scheduler_add_task. mstep. unfold get at 1.
  destruct (decide (tasks_counter s < MAX_TASKS)) as [Hlt|Hge]; [|done].
  rewrite <- Hok.
  pose proof (dup_scan_run task (task_array s) [] s eq_refl) as Hscan.
  cbn [length app] in Hscan. change (Z.of_nat 0) with 0 in Hscan.
  rewrite Hscan. clear Hscan.
  destruct (decide (has_task task (task_array s))) as [Hdup|Hnew].
  { destruct (decide (SCH_STATUS_OK = SCH_ERROR)); done. }
  destruct (decide (SCH_STATUS_OK = SCH_STATUS_OK)); [|done].
  unfold get.
  destruct (decide (0 <= tasks_counter s)) as [Hpos|Hneg].
  - assert (Hn : (Z.to_nat (tasks_counter s) < length (task_array s))%nat)
      by (rewrite Hok; lia).
    destruct (lookup_lt_is_Some_2 _ _ Hn) as [t0 Hlk].
    remember (Z.to_nat (tasks_counter s)) as n eqn:En.
    assert (Hc : tasks_counter s = Z.of_nat n) by lia.
    rewrite Hc.
    rewrite (modify_task_poke _ _ _ _ Hlk).
    rewrite !modify_task_poked by done.
    unfold modify_counter, modify_flags, modify. cbn.
    rewrite Hc. reflexivity.
  - unfold modify_task at 1. unfold slot.
    destruct (decide (0 <= tasks_counter s)); done.
Qed.

End RunLemmas.

(** ** The consistency invariant *)

Lemma active_slots_replicate_zero (n : nat) :
  active_slots (replicate n task_zero) = 0.
Proof. induction n as [|n IH]; cbn; [done|]. by rewrite IH. Qed.

Lemma active_slots_pos (l : list task_t) (n : nat) (t : task_t) :
  l !! n = Some t -> NULL ≠ ptask t -> 1 <= active_slots l.
Proof.
  revert n. induction l as [|x l IH]; intros n Hlk Hact; [done|].
  destruct n as [|n]; cbn in Hlk; cbn [active_slots].
  - inversion Hlk; subst. destruct (decide (NULL ≠ ptask t)); [|done].
    pose proof (active_slots_nonneg l). lia.
  - pose proof (IH n Hlk Hact). destruct (decide (NULL ≠ ptask x)); lia.
Qed.

Lemma idle_ok_active (t : task_t) : NULL ≠ ptask t -> idle_ok t.
Proof. intros H Hn. congruence. Qed.

Lemma idle_ok_clear_task (t : task_t) : idle_ok (clear_task t).
Proof. intros _. by cbn. Qed.

Lemma delete_task_Ok (i : Z) (s : sched) (r : Z) (s' : sched) :
  scheduler_delete_task i s = Ok (r, s') ->
  exists n t, i = Z.of_nat n /\ task_array s !! n = Some t.
Proof.
  unfold scheduler_delete_task. mstep. unfold read_task at 1.
  destruct (slot (task_array s) i) as [t|] eqn:Hs; [|discriminate].
  intros _. apply slot_Some in Hs as [Hi Hlk].
  exists (Z.to_nat i), t. split; [lia|done].
Qed.

Section Consistency.

Variable MAX_TASKS : Z.
Hypothesis MAX_TASKS_range : 0 < MAX_TASKS < 2 ^ 31.

Lemma consistent_ext (s s' : sched) :
  tasks_counter s' = tasks_counter s ->
  task_array s' = task_array s ->
  consistent MAX_TASKS s -> consistent MAX_TASKS s'.
Proof.
  unfold consistent, table_ok. intros -> ->. done.
Qed.

Lemma consistent_boot : consistent MAX_TASKS (boot MAX_TASKS).
Proof.
  unfold consistent, table_ok, boot. cbn. split_and!.
  - apply length_replicate.
  - unfold is_u32. lia.
  - apply Forall_replicate. intros _. by cbn.
  - by rewrite active_slots_replicate_zero.
Qed.

Lemma consistent_poke_active (s : sched) (n : nat) (t t' : task_t) :
  consistent MAX_TASKS s ->
  task_array s !! n = Some t ->
  ptask t' = ptask t -> NULL ≠ ptask t ->
  consistent MAX_TASKS (poke n t' s).
Proof.
  intros (Hok & Hc & Hidle & Hact) Hlk Hp Ha.
  unfold consistent, table_ok, poke. cbn. split_and!; [|done| |].
  - by rewrite length_insert.
  - apply Forall_insert; [done|]. apply idle_ok_active. congruence.
  - rewrite (active_slots_insert _ _ _ _ Hlk). rewrite Hp.
    destruct (decide (NULL ≠ ptask t)); lia.
Qed.

Lemma consistent_delete_at (s : sched) (n : nat) (t : task_t) :
  consistent MAX_TASKS s ->
  task_array s !! n = Some t ->
  consistent MAX_TASKS (delete_at n t s).
Proof.
  intros (Hok & Hc & Hidle & Hact) Hlk. unfold delete_at.
  destruct (decide (NULL ≠ ptask t)) as [Ha|Hi]; [|done].
  pose proof (active_slots_pos _ _ _ Hlk Ha) as Hpos.
  unfold consistent, table_ok. cbn. split_and!.
  - by rewrite length_insert.
  - apply u32_range.
  - apply Forall_insert; [done|]. apply idle_ok_clear_task.
  - rewrite (active_slots_insert _ _ _ _ Hlk).
    destruct (decide (NULL ≠ ptask t)); [|done].
    destruct (decide (NULL ≠ ptask (clear_task t))) as [H|_]; [by cbn in H|].
    rewrite u32_id by (unfold is_u32 in *; lia). lia.
Qed.

Lemma consistent_delete (s s' : sched) (i r : Z) :
  consistent MAX_TASKS s ->
  scheduler_delete_task i s = Ok (r, s') ->
  consistent MAX_TASKS s'.
Proof.
  intros Hcons Hrun.
  destruct (delete_task_Ok _ _ _ _ Hrun) as (n & t & -> & Hlk).
  rewrite (delete_task_lookup _ _ _ Hlk) in Hrun. inversion Hrun; subst.
  by apply consistent_delete_at.
Qed.

Lemma consistent_init (s s' : sched) (r : Z) :
  consistent MAX_TASKS s ->
  scheduler_init MAX_TASKS s = Ok (r, s') ->
  consistent MAX_TASKS s'.
Proof.
  intros (Hok & Hc & Hidle & Hact) Hrun.
  rewrite scheduler_init_run in Hrun by done. inversion Hrun; subst.
  unfold consistent, table_ok. cbn. split_and!.
  - by rewrite length_fmap.
  - apply u32_range.
  - apply Forall_fmap. eapply Forall_impl; [exact Hidle|].
    intros t Ht. unfold wipe_task. cbn.
    destruct (decide (NULL ≠ ptask t)); [apply idle_ok_clear_task|done].
  - rewrite active_slots_wipe. apply u32_range.
Qed.

Lemma consistent_tick (s s' : sched) (r : Z) :
  consistent MAX_TASKS s ->
  scheduler_update MAX_TASKS s = Ok (r, s') ->
  consistent MAX_TASKS s'.
Proof.
  intros (Hok & Hc & Hidle & Hact) Hrun.
  rewrite scheduler_update_run in Hrun by done. inversion Hrun; subst.
  unfold consistent, table_ok. cbn. split_and!; [|done| |].
  - by rewrite length_fmap.
  - apply Forall_fmap. eapply Forall_impl; [exact Hidle|].
    intros t Ht. by apply idle_ok_tick_task.
  - rewrite active_slots_fmap by apply ptask_tick_task. done.
Qed.

(** A successful registration never stores a null callback: while the
    counter is below the capacity some slot is empty, and the duplicate scan
    finds it. *)
Lemma add_task_not_null (s : sched) (task : Z) :
  consistent MAX_TASKS s ->
  tasks_counter s < MAX_TASKS ->
  ¬ has_task task (task_array s) ->
  NULL ≠ task.
Proof.
  intros (Hok & Hc & Hidle & Hact) Hlt Hnew Hnull. subst task.
  pose proof (active_slots_full _ Hnew) as Hfull.
  unfold table_ok in Hok. rewrite Hok in Hfull. lia.
Qed.

Lemma consistent_add (s s' : sched) (task : Z) (name : option string)
    (task_param d p r : Z) :
  consistent MAX_TASKS s ->
  scheduler_add_task MAX_TASKS task name task_param d p s = Ok (r, s') ->
  consistent MAX_TASKS s'.
Proof.
  intros Hcons Hrun. pose proof Hcons as (Hok & Hc & Hidle & Hact).
  rewrite scheduler_add_task_run in Hrun by done.
  destruct (decide (tasks_counter s < MAX_TASKS)) as [Hlt|Hge].
  - destruct (decide (has_task task (task_array s))) as [Hdup|Hnew].
    + inversion Hrun; subst. by apply (consistent_ext s).
    + destruct (decide (0 <= tasks_counter s)) as [Hpos|Hneg]; [|discriminate].
      inversion Hrun; subst. clear Hrun.
      pose proof (add_task_not_null _ _ Hcons Hlt Hnew) as Hnn.
      assert (Hn : (Z.to_nat (tasks_counter s) < length (task_array s))%nat)
        by (rewrite Hok; lia).
      destruct (lookup_lt_is_Some_2 _ _ Hn) as [t0 Hlk].
      unfold consistent, table_ok. cbn. split_and!.
      * by rewrite length_insert.
      * apply u32_range.
      * apply Forall_insert; [done|]. by apply idle_ok_active.
      * rewrite (active_slots_insert _ _ _ _ Hlk).
        rewrite u32_id by (unfold is_u32; lia).
        cbn [ptask new_task].
        destruct (decide (NULL ≠ ptask t0)); destruct (decide (NULL ≠ task)); lia.
  - inversion Hrun; subst. by apply (consistent_ext s).
Qed.

End Consistency.

(** ** [scheduler_dispatch_task] *)

Section Dispatch.

Variable MAX_TASKS : Z.
Variable exec : Z -> Z -> sched -> sched.

Lemma call_task_run (s : sched) (n : nat) (t : task_t) :
  task_array s !! n = Some t ->
  ptask t ≠ NULL ->
  call_task exec (Z.of_nat n) s
  = Ok (tt, set_calls (calls s ++ [Call (ptask t) (Z.of_nat n) t])
              (exec (ptask t) (Z.of_nat n)
                 (log_call (Call (ptask t) (Z.of_nat n) t) s))).
Proof.
  intros Hlk Hne. unfold call_task. mstep.
  rewrite (read_task_lookup _ _ _ Hlk).
  destruct (decide (ptask t = NULL)); [done|]. reflexivity.
Qed.

Lemma call_task_null (s : sched) (n : nat) (t : task_t) :
  task_array s !! n = Some t ->
  ptask t = NULL ->
  call_task exec (Z.of_nat n) s = Fault NullCall.
Proof.
  intros Hlk Hnull. unfold call_task. mstep.
  rewrite (read_task_lookup _ _ _ Hlk).
  destruct (decide (ptask t = NULL)); done.
Qed.

(** Past the last slot the loop body reads outside the table: this is the
    fault [dispatch_loop] reports when its fuel is used up. *)
Lemma dispatch_body_oob (s : sched) (i : Z) :
  Z.of_nat (length (task_array s)) <= i ->
  dispatch_body exec i s = Fault OutOfBounds.
Proof.
  intros H. unfold dispatch_body. mstep. by rewrite read_task_oob.
Qed.

Lemma call_task_quiet (s : sched) (n : nat) (t : task_t) :
  quiet exec ->
  task_array s !! n = Some t ->
  ptask t ≠ NULL ->
  call_task exec (Z.of_nat n) s
  = Ok (tt, log_call (Call (ptask t) (Z.of_nat n) t) s).
Proof.
  intros Hq Hlk Hne. rewrite (call_task_run _ _ _ Hlk Hne).
  rewrite Hq. reflexivity.
Qed.

Lemma dispatch_body_quiet (s : sched) (n : nat) (t : task_t) :
  quiet exec ->
  task_array s !! n = Some t ->
  dispatch_body exec (Z.of_nat n) s = dispatch_quiet n t s.
Proof.
  intros Hq Hlk. pose proof (lookup_lt_Some _ _ _ Hlk) as Hlt.
  unfold dispatch_body, dispatch_quiet. mstep.
  rewrite (read_task_lookup _ _ _ Hlk).
  destruct (decide (status t = RUN_ALWAYS)) as [Hra|Hra].
  - destruct (decide (ptask t = NULL)) as [Hn|Hn].
    + by rewrite (call_task_null _ _ _ Hlk Hn).
    + rewrite (call_task_quiet _ _ _ Hq Hlk Hn).
      rewrite (read_task_lookup _ n t) by done.
      destruct (decide (status t = READY)); [congruence|done].
  - rewrite (read_task_lookup _ _ _ Hlk).
    destruct (decide (status t = READY)) as [Hrd|Hrd]; [|done].
    rewrite (modify_task_poke _ _ _ _ Hlk).
    destruct (decide (ptask t = NULL)) as [Hn|Hn].
    + by rewrite (call_task_null _ n (set_status RUNNING t))
        by (done || by apply lookup_poke).
    + rewrite (call_task_quiet _ n (set_status RUNNING t))
        by (done || by apply lookup_poke).
      cbn [ptask set_status].
      set (e := Call (ptask t) (Z.of_nat n) (set_status RUNNING t)).
      assert (Hlk1 : task_array (log_call e (poke n (set_status RUNNING t) s)) !! n
                     = Some (set_status RUNNING t))
        by (by apply lookup_poke).
      rewrite (read_task_lookup _ _ _ Hlk1). cbn [status set_status].
      destruct (decide (RUNNING = RUNNING)); [|done].
      rewrite (modify_task_poke _ _ _ _ Hlk1).
      assert (Heq : poke n (set_status STOPPED (set_status RUNNING t))
                      (log_call e (poke n (set_status RUNNING t) s))
                    = poke n (set_status STOPPED t) (log_call e s)).
      { unfold poke, log_call. cbn. by rewrite list_insert_insert_eq. }
      rewrite Heq. clear Heq Hlk1.
      assert (Hlk2 : task_array (poke n (set_status STOPPED t) (log_call e s)) !! n
                     = Some (set_status STOPPED t))
        by (by apply lookup_poke).
      rewrite (read_task_lookup _ _ _ Hlk2). cbn [period set_status].
      destruct (decide (0 = period t)); [|done].
      by rewrite (delete_task_lookup _ _ _ Hlk2).
Qed.

Lemma dispatch_quiet_consistent (s : sched) (n : nat) (t : task_t) :
  consistent MAX_TASKS s ->
  task_array s !! n = Some t ->
  dispatch_quiet n t s ≠ Fault NullCall /\
  forall s', dispatch_quiet n t s = Ok (tt, s') -> consistent MAX_TASKS s'.
Proof.
  intros Hcons Hlk. pose proof Hcons as (Hok & Hc & Hidle & Hact).
  pose proof (Forall_lookup_1 _ _ _ _ Hidle Hlk) as Ht.
  unfold dispatch_quiet.
  destruct (decide (status t = RUN_ALWAYS)) as [Hra|Hra].
  - destruct (decide (ptask t = NULL)) as [Hn|Hn].
    + destruct (Ht Hn) as [Hst _]. congruence.
    + split; [done|]. intros s' Hs'. inversion Hs'; subst.
      by apply (consistent_ext MAX_TASKS s).
  - destruct (decide (status t = READY)) as [Hrd|Hrd].
    + destruct (decide (ptask t = NULL)) as [Hn|Hn].
      * destruct (Ht Hn) as [Hst _]. congruence.
      * split; [done|]. intros s' Hs'. inversion Hs'; subst. clear Hs'.
        set (e := Call (ptask t) (Z.of_nat n) (set_status RUNNING t)).
        assert (Hc1 : consistent MAX_TASKS
                        (poke n (set_status STOPPED t) (log_call e s))).
        { apply (consistent_poke_active MAX_TASKS _ n t);
            [by apply (consistent_ext MAX_TASKS s)|done|done|congruence]. }
        destruct (decide (0 = period t)); [|done].
        apply consistent_delete_at; [done|].
        apply lookup_poke. cbn. by eapply lookup_lt_Some.
    + split; [done|]. intros s' Hs'. by inversion Hs'; subst.
Qed.

Lemma dispatch_loop_quiet (fuel k : nat) (s : sched) :
  quiet exec ->
  consistent MAX_TASKS s ->
  (k + fuel = Z.to_nat MAX_TASKS)%nat ->
  dispatch_loop exec fuel (Z.of_nat k) s ≠ Fault NullCall /\
  forall s', dispatch_loop exec fuel (Z.of_nat k) s = Ok (tt, s') ->
             consistent MAX_TASKS s'.
Proof.
  intros Hq. revert k s. induction fuel as [|fuel IH]; intros k s Hcons Hk.
  - cbn. destruct (decide (Z.of_nat k < tasks_counter s)); [done|].
    split; [done|]. intros s' Hs'. by inversion Hs'; subst.
  - cbn [dispatch_loop].
    destruct (decide (Z.of_nat k < tasks_counter s)) as [Hlt|Hge].
    + mstep.
      assert (Hn : (k < length (task_array s))%nat)
        by (destruct Hcons as [Hok _]; rewrite Hok; lia).
      destruct (lookup_lt_is_Some_2 _ _ Hn) as [t Hlk].
      rewrite (dispatch_body_quiet _ _ _ Hq Hlk).
      destruct (dispatch_quiet_consistent _ _ _ Hcons Hlk) as [Hnf Hnext].
      destruct (dispatch_quiet k t s) as [[[] s1]|f] eqn:Hd.
      * replace (Z.of_nat k + 1) with (Z.of_nat (S k)) by lia.
        apply IH; [by apply Hnext|lia].
      * split; [congruence|done].
    + split; [done|]. intros s' Hs'. by inversion Hs'; subst.
Qed.

Lemma dispatch_task_quiet (s : sched) :
  quiet exec ->
  consistent MAX_TASKS s ->
  scheduler_dispatch_task MAX_TASKS exec s ≠ Fault NullCall /\
  forall s', scheduler_dispatch_task MAX_TASKS exec s = Ok (tt, s') ->
             consistent MAX_TASKS s'.
Proof.
  intros Hq Hcons. unfold scheduler_dispatch_task.
  apply (dispatch_loop_quiet (Z.to_nat MAX_TASKS) 0 s Hq Hcons). lia.
Qed.

Lemma step_consistent (s s' : sched) :
  0 < MAX_TASKS < 2 ^ 31 ->
  quiet exec ->
  consistent MAX_TASKS s -> step MAX_TASKS exec s s' -> consistent MAX_TASKS s'.
Proof.
  intros Hmax Hq Hcons [r H|task name task_param d p r H|i r H|r H|H].
  - by eapply consistent_init.
  - by eapply consistent_add.
  - by eapply consistent_delete.
  - by eapply consistent_tick.
  - by eapply dispatch_task_quiet.
Qed.

Lemma reachable_consistent (s : sched) :
  0 < MAX_TASKS < 2 ^ 31 ->
  quiet exec ->
  reachable MAX_TASKS exec s -> consistent MAX_TASKS s.
Proof.
  intros Hmax Hq Hreach. induction Hreach as [|s s' _ IH Hstep].
  - apply consistent_boot.
  - by eapply step_consistent.
Qed.

End Dispatch.

(** ** Dispatch with callbacks that use the scheduler *)

Lemma read_task_Ok (i : Z) (s s0 : sched) (t : task_t) :
  read_task i s = Ok (t, s0) ->
  s0 = s /\ exists n, i = Z.of_nat n /\ task_array s !! n = Some t.
Proof.
  unfold read_task. destruct (slot (task_array s) i) as [t0|] eqn:Hs; [|discriminate].
  intros H. inversion H; subst. split; [done|].
  apply slot_Some in Hs as [Hi Hlk]. exists (Z.to_nat i). split; [lia|done].
Qed.

Section DispatchApi.

Variable MAX_TASKS : Z.
Variable exec : Z -> Z -> sched -> sched.
Hypothesis MAX_TASKS_range : 0 < MAX_TASKS < 2 ^ 31.

Lemma api_steps_consistent (s s' : sched) :
  api_steps MAX_TASKS s s' -> consistent MAX_TASKS s -> consistent MAX_TASKS s'.
Proof.
  induction 1 as [s|s s1 s2 r H _ IH|s s1 s2 task name task_param d p r H _ IH
                  |s s1 s2 i r H _ IH|s s1 s2 r H _ IH];
    intros Hcons; [done|apply IH..].
  - by eapply consistent_init.
  - by eapply consistent_add.
  - by eapply consistent_delete.
  - by eapply consistent_tick.
Qed.

Hypothesis exec_api : through_api MAX_TASKS exec.

Lemma call_task_consistent (s : sched) (n : nat) (t : task_t) :
  consistent MAX_TASKS s ->
  consistent MAX_TASKS
    (set_calls (calls s ++ [Call (ptask t) (Z.of_nat n) t])
       (exec (ptask t) (Z.of_nat n)
          (log_call (Call (ptask t) (Z.of_nat n) t) s))).
Proof.
  intros Hcons.
  apply (consistent_ext MAX_TASKS
           (exec (ptask t) (Z.of_nat n)
              (log_call (Call (ptask t) (Z.of_nat n) t) s)));
    [reflexivity|reflexivity|].
  eapply api_steps_consistent; [apply exec_api|].
  by apply (consistent_ext MAX_TASKS s).
Qed.

Lemma consistent_lookup_idle (s : sched) (n : nat) (t : task_t) :
  consistent MAX_TASKS s -> task_array s !! n = Some t -> idle_ok t.
Proof.
  intros (_ & _ & Hidle & _) Hlk. by apply (Forall_lookup_1 _ _ _ _ Hidle Hlk).
Qed.

Lemma consistent_lookup_total (s : sched) (n : nat) :
  consistent MAX_TASKS s -> (n < Z.to_nat MAX_TASKS)%nat ->
  exists t, task_array s !! n = Some t.
Proof.
  intros (Hok & _) Hn. apply lookup_lt_is_Some_2. by rewrite Hok.
Qed.

(** The body at a slot that is not [RUN_ALWAYS]. *)
Lemma dispatch_body_consistent_ready (s s' : sched) (n : nat) (t : task_t) :
  consistent MAX_TASKS s ->
  task_array s !! n = Some t ->
  status t ≠ RUN_ALWAYS ->
  dispatch_body exec (Z.of_nat n) s = Ok (tt, s') ->
  consistent MAX_TASKS s'.
Proof.
  intros Hcons Hlk Hra. pose proof (lookup_lt_Some _ _ _ Hlk) as Hlt.
  pose proof Hcons as (Hok & _).
  unfold dispatch_body. mstep.
  rewrite (read_task_lookup _ _ _ Hlk).
  destruct (decide (status t = RUN_ALWAYS)); [done|].
  rewrite (read_task_lookup _ _ _ Hlk).
  destruct (decide (status t = READY)) as [Hrd|Hrd];
    [|by intros H; inversion H; subst].
  assert (Hact : NULL ≠ ptask t).
  { intros Hn. destruct (consistent_lookup_idle _ _ _ Hcons Hlk (eq_sym Hn)) as [Hs _].
    congruence. }
  rewrite (modify_task_poke _ _ _ _ Hlk).
  assert (Hc1 : consistent MAX_TASKS (poke n (set_status RUNNING t) s))
    by (by apply (consistent_poke_active MAX_TASKS s n t)).
  rewrite (call_task_run exec _ n (set_status RUNNING t))
    by (by apply lookup_poke || cbn; congruence).
  pose proof (call_task_consistent _ n (set_status RUNNING t) Hc1) as Hc2.
  set (s_ret := set_calls _ _) in *.
  destruct (consistent_lookup_total s_ret n Hc2) as [t1 Hlk1];
    [unfold table_ok in Hok; lia|].
  rewrite (read_task_lookup _ _ _ Hlk1).
  set (s2 := if decide (RUNNING = status t1)
             then poke n (set_status STOPPED t1) s_ret else s_ret).
  set (t2 := if decide (RUNNING = status t1) then set_status STOPPED t1 else t1).
  assert (Hmod : (if decide (RUNNING = status t1)
                  then modify_task (Z.of_nat n) (set_status STOPPED)
                  else fun s0 : sched => Ok (tt, s0)) s_ret = Ok (tt, s2)).
  { unfold s2. case_decide; [by apply modify_task_poke|done]. }
  rewrite Hmod.
  assert (Hlk2 : task_array s2 !! n = Some t2).
  { unfold s2, t2. case_decide; [|done].
    apply lookup_poke. by eapply lookup_lt_Some. }
  assert (Hc3 : consistent MAX_TASKS s2).
  { unfold s2. case_decide as Hrun; [|done].
    apply (consistent_poke_active MAX_TASKS s_ret n t1); [done|done|done|].
    intros Hn.
    destruct (consistent_lookup_idle _ _ _ Hc2 Hlk1 (eq_sym Hn)) as [Hs _].
    congruence. }
  rewrite (read_task_lookup _ _ _ Hlk2).
  destruct (decide (0 = period t2)).
  - rewrite (delete_task_lookup _ _ _ Hlk2). intros H. inversion H; subst.
    by apply consistent_delete_at.
  - intros H. by inversion H; subst.
Qed.

Lemma dispatch_body_consistent (s s' : sched) (i : Z) :
  consistent MAX_TASKS s ->
  dispatch_body exec i s = Ok (tt, s') ->
  consistent MAX_TASKS s'.
Proof.
  intros Hcons Hrun. pose proof Hcons as (Hok & _).
  assert (Hread : exists t s0, read_task i s = Ok (t, s0)).
  { unfold dispatch_body, mbind, M_bind in Hrun.
    destruct (read_task i s) as [[t s0]|]; [eauto|discriminate]. }
  destruct Hread as (t & s0 & Hread).
  apply read_task_Ok in Hread as (_ & n & -> & Hlk).
  pose proof (lookup_lt_Some _ _ _ Hlk) as Hlt.
  destruct (decide (status t = RUN_ALWAYS)) as [Hra|Hra];
    [|by eapply dispatch_body_consistent_ready].
  (* the continuous task is called first; what follows is the body again,
     at the slot as the callback left it *)
  destruct (decide (ptask t = NULL)) as [Hn|Hn].
  { unfold dispatch_body in Hrun. mstep. unfold mbind, M_bind in Hrun.
    rewrite (read_task_lookup _ _ _ Hlk) in Hrun.
    destruct (decide (status t = RUN_ALWAYS)); [|done].
    by rewrite (call_task_null exec _ _ _ Hlk Hn) in Hrun. }
  pose proof (call_task_consistent s n t Hcons) as Hc1.
  set (s1 := set_calls _ _) in Hc1.
  destruct (consistent_lookup_total s1 n Hc1) as [t1 Hlk1];
    [unfold table_ok in Hok; lia|].
  assert (Hsplit : dispatch_body exec (Z.of_nat n) s
                   = if decide (status t1 = READY)
                     then dispatch_body exec (Z.of_nat n) s1
                     else Ok (tt, s1)).
  { unfold dispatch_body. mstep.
    rewrite (read_task_lookup _ _ _ Hlk). cbn beta iota.
    destruct (decide (status t = RUN_ALWAYS)); [|done].
    rewrite (call_task_run exec _ _ _ Hlk Hn). fold s1. cbn beta iota.
    rewrite !(read_task_lookup _ _ _ Hlk1). cbn beta iota.
    destruct (decide (status t1 = READY)) as [Hrd|Hrd]; [|done].
    destruct (decide (status t1 = RUN_ALWAYS)); [congruence|].
    cbn beta iota. rewrite !(read_task_lookup _ _ _ Hlk1). cbn beta iota.
    destruct (decide (status t1 = READY)); [|done].
    reflexivity. }
  rewrite Hsplit in Hrun. destruct (decide (status t1 = READY)) as [Hrd|Hrd].
  - eapply (dispatch_body_consistent_ready s1 s' n t1); try done. congruence.
  - by inversion Hrun; subst.
Qed.

Lemma dispatch_loop_consistent (fuel : nat) (i : Z) (s s' : sched) :
  consistent MAX_TASKS s ->
  dispatch_loop exec fuel i s = Ok (tt, s') ->
  consistent MAX_TASKS s'.
Proof.
  revert i s. induction fuel as [|fuel IH]; intros i s Hcons Hrun.
  - cbn in Hrun. case_decide; [discriminate|]. by inversion Hrun; subst.
  - cbn [dispatch_loop] in Hrun. case_decide; [|by inversion Hrun; subst].
    unfold mbind, M_bind in Hrun.
    destruct (dispatch_body exec i s) as [[[] s1]|] eqn:Hbody; [|discriminate].
    eapply IH; [|exact Hrun]. by eapply dispatch_body_consistent.
Qed.

Lemma reachable_consistent_api (s : sched) :
  reachable MAX_TASKS exec s -> consistent MAX_TASKS s.
Proof.
  induction 1 as [|s s' _ IH Hstep]; [apply consistent_boot|].
  destruct Hstep as [r H|task name task_param d p r H|i r H|r H|H].
  - by eapply consistent_init.
  - by eapply consistent_add.
  - by eapply consistent_delete.
  - by eapply consistent_tick.
  - by eapply dispatch_loop_consistent.
Qed.

End DispatchApi.

(** * The tick *)

(** C1.  One call of the tick function always returns, and treats every slot
    of the table on its own.  A slot with a callback whose delay is 0 gets
    status [READY] unless its status is [RUN_ALWAYS] or [SUSPENDED], which
    stay; its delay becomes the period when the period is positive and stays
    0 when the period is 0.  A slot with a callback and a nonzero delay has
    its delay decremented by exactly one and keeps its status.  A slot without
    callback is left as it is.  The callback, name, period and handle of a
    slot and the task counter never change. *)
Theorem scheduler_update_slot (MAX_TASKS : Z) (s : sched) (n : nat) (t : task_t) :
  table_ok MAX_TASKS s ->
  task_array s !! n = Some t ->
  is_u32 (delay t) ->
  exists s' t',
    scheduler_update MAX_TASKS s = Ok (SCH_STATUS_OK, s') /\
    task_array s' !! n = Some t' /\
    tasks_counter s' = tasks_counter s /\
    same_identity t t' /\
    (ptask t ≠ NULL -> delay t = 0 ->
       (status t = RUN_ALWAYS \/ status t = SUSPENDED -> status t' = status t) /\
       (status t ≠ RUN_ALWAYS -> status t ≠ SUSPENDED -> status t' = READY) /\
       (period t > 0 -> delay t' = period t) /\
       (period t = 0 -> delay t' = 0)) /\
    (ptask t ≠ NULL -> delay t ≠ 0 ->
       delay t' = delay t - 1 /\ status t' = status t) /\
    (ptask t = NULL -> t' = t).
Proof.
  intros Hok Hlk Hd.
  exists (set_task_array (tick_task <$> task_array s) s), (tick_task t).
  split; [by apply scheduler_update_run|].
  split; [cbn; by rewrite list_lookup_fmap, Hlk|].
  split; [done|].
  unfold tick_task, same_identity.
  destruct (decide (NULL ≠ ptask t)) as [Hact|Hidle].
  - destruct (decide (0 = delay t)) as [Hz|Hnz].
    + destruct (decide (status t ≠ RUN_ALWAYS ∧ status t ≠ SUSPENDED)) as [[H1 H2]|Hst];
        cbn [period set_status];
        destruct (decide (period t > 0)) as [Hp|Hp]; cbn;
        (split; [done|]); split_and!; try done; try lia; try congruence.
      * intros _ _. split_and!; try done; try lia. intros [?|?]; congruence.
      * intros _ _. split_and!; try done; try lia. intros [?|?]; congruence.
      * intros _ _. split_and!; try done; try lia.
        intros H1 H2. exfalso. by apply Hst.
      * intros _ _. split_and!; try done; try lia.
        intros H1 H2. exfalso. by apply Hst.
    + cbn. split; [done|]. split_and!; try done; try congruence.
      intros _ _. split; [|done]. apply u32_id.
      unfold is_u32 in *. lia.
  - split; [done|]. split_and!; try done; intros H; exfalso; apply Hidle; congruence.
Qed.

(** * Registration *)

(** C7.  Registering a callback that some slot of the table already holds
    returns [SCH_ERROR] and leaves the task counter and the whole task table
    as they were. *)
Theorem scheduler_add_task_duplicate (MAX_TASKS : Z) (s : sched) (n : nat)
    (t : task_t) (task : Z) (name : option string) (task_param d p : Z) :
  table_ok MAX_TASKS s ->
  task_array s !! n = Some t ->
  ptask t ≠ NULL ->
  ptask t = task ->
  exists s',
    scheduler_add_task MAX_TASKS task name task_param d p s = Ok (SCH_ERROR, s') /\
    tasks_counter s' = tasks_counter s /\
    task_array s' = task_array s.
Proof.
  intros Hok Hlk _ Heq.
  assert (Hdup : has_task task (task_array s)).
  { unfold has_task. apply Exists_exists. exists t. split; [|done].
    by eapply list_elem_of_lookup_2. }
  rewrite scheduler_add_task_run by done.
  destruct (decide (tasks_counter s < MAX_TASKS)).
  - destruct (decide (has_task task (task_array s))); [|done]. by eexists.
  - by eexists.
Qed.

(** * Set-up sequences *)

Lemma fresh_state (MAX_TASKS : Z) :
  scheduler_init MAX_TASKS (boot MAX_TASKS) = Ok (SCH_STATUS_OK, boot MAX_TASKS).
Proof.
  rewrite scheduler_init_run by apply length_replicate.
  unfold boot. cbn. rewrite active_slots_replicate_zero.
  f_equal. f_equal. f_equal.
  induction (Z.to_nat MAX_TASKS) as [|n IH]; cbn; [done|]. by rewrite IH.
Qed.

Lemma perform_all_bounded (MAX_TASKS : Z) (cs : list api_call) (s : sched) :
  0 < MAX_TASKS < 2 ^ 31 ->
  consistent MAX_TASKS s ->
  tasks_counter s <= MAX_TASKS ->
  Forall (in_table MAX_TASKS) cs ->
  exists s',
    perform_all MAX_TASKS cs s = Ok (tt, s') /\
    consistent MAX_TASKS s' /\ tasks_counter s' <= MAX_TASKS.
Proof.
  intros Hmax. revert s. induction cs as [|c cs IH]; intros s Hcons Hle Hin.
  - exists s. by cbn.
  - apply Forall_cons in Hin as [Hc Hcs].
    pose proof Hcons as (Hok & Hu & Hidle & Hact).
    cbn [perform_all]. mstep.
    destruct c as [task name task_param d p|i]; cbn [perform in_table] in *.
    + destruct (scheduler_add_task MAX_TASKS task name task_param d p s)
        as [[r s1]|f] eqn:Hadd.
      * apply IH; [by eapply consistent_add| |done].
        rewrite scheduler_add_task_run in Hadd by done.
        repeat case_decide; inversion Hadd; subst; cbn; try done.
        rewrite u32_id by (unfold is_u32; lia). lia.
      * exfalso. rewrite scheduler_add_task_run in Hadd by done.
        unfold is_u32 in Hu. repeat case_decide; try discriminate; lia.
    + assert (Hn : (Z.to_nat i < length (task_array s))%nat)
        by (rewrite Hok; lia).
      destruct (lookup_lt_is_Some_2 _ _ Hn) as [t Hlk].
      rewrite <- (Z2Nat.id i) by lia.
      rewrite (delete_task_lookup _ _ _ Hlk).
      apply IH; [by apply consistent_delete_at| |done].
      unfold delete_at. case_decide; [|done]. cbn.
      pose proof (active_slots_pos _ _ _ Hlk ltac:(done)).
      rewrite u32_id by (unfold is_u32 in *; lia). lia.
Qed.

(** C6.  From a freshly initialised scheduler, every sequence of
    registrations and removals of table slots runs to completion and leaves
    the task counter between 0 and [MAX_TASKS].  When the counter equals
    [MAX_TASKS] a registration returns [SCH_ERROR] and changes neither the
    counter nor the table; a removal changes nothing when the slot has no
    callback, and otherwise takes exactly one from a counter that is at least
    one. *)
Theorem tasks_counter_within_capacity (MAX_TASKS : Z) (cs : list api_call) :
  0 < MAX_TASKS < 2 ^ 31 ->
  Forall (in_table MAX_TASKS) cs ->
  exists fresh s,
    scheduler_init MAX_TASKS (boot MAX_TASKS) = Ok (SCH_STATUS_OK, fresh) /\
    tasks_counter fresh = 0 /\
    perform_all MAX_TASKS cs fresh = Ok (tt, s) /\
    0 <= tasks_counter s <= MAX_TASKS /\
    (tasks_counter s = MAX_TASKS ->
     forall task name task_param d p, exists s',
       scheduler_add_task MAX_TASKS task name task_param d p s = Ok (SCH_ERROR, s') /\
       tasks_counter s' = tasks_counter s /\ task_array s' = task_array s) /\
    (forall n t, task_array s !! n = Some t -> exists s',
       scheduler_delete_task (Z.of_nat n) s = Ok (SCH_STATUS_OK, s') /\
       (ptask t = NULL -> s' = s) /\
       (ptask t ≠ NULL ->
        1 <= tasks_counter s /\ tasks_counter s' = tasks_counter s - 1)).
Proof.
  intros Hmax Hin.
  destruct (perform_all_bounded MAX_TASKS cs (boot MAX_TASKS) Hmax
              (consistent_boot MAX_TASKS) ltac:(cbn; lia) Hin)
    as (s & Hrun & Hcons & Hle).
  pose proof Hcons as (Hok & Hu & Hidle & Hact).
  exists (boot MAX_TASKS), s. split_and!; try done.
  - apply fresh_state.
  - apply Hu.
  - intros Hfull task name task_param d p.
    rewrite scheduler_add_task_run by done.
    case_decide; [lia|]. by eexists.
  - intros n t Hlk. exists (delete_at n t s).
    split; [by apply delete_task_lookup|].
    unfold delete_at. split.
    + intros Hn. case_decide; [congruence|done].
    + intros Hn. case_decide; [|congruence].
      pose proof (active_slots_pos _ _ _ Hlk ltac:(done)).
      cbn. split; [lia|]. apply u32_id. unfold is_u32 in *. lia.
Qed.

(** * Reachable states *)

(** C9, as the code has it.  In every state reached from the static
    initialisers by initialisation, registration, removal, ticks and dispatch
    passes, where a callback acts on the scheduler only by initialising,
    registering, removing or through a tick that interrupts it (or not at
    all), a slot without callback has status [STOPPED], delay 0, handle index
    0 and a null handle parameter.  Period and name are not reset: removing a
    slot leaves it with those neutral values and with the period and the name
    it had. *)
Theorem idle_slot_neutral (MAX_TASKS : Z) (exec : Z -> Z -> sched -> sched)
    (s : sched) (n : nat) (t : task_t) :
  0 < MAX_TASKS < 2 ^ 31 ->
  through_api MAX_TASKS exec ->
  reachable MAX_TASKS exec s ->
  task_array s !! n = Some t ->
  (ptask t = NULL ->
   status t = STOPPED /\ delay t = 0 /\
   index (task_handler t) = 0 /\ parameter (task_handler t) = NULL) /\
  exists s' t',
    scheduler_delete_task (Z.of_nat n) s = Ok (SCH_STATUS_OK, s') /\
    task_array s' !! n = Some t' /\
    ptask t' = NULL /\
    status t' = STOPPED /\ delay t' = 0 /\
    index (task_handler t') = 0 /\ parameter (task_handler t') = NULL /\
    period t' = period t /\ task_name t' = task_name t.
Proof.
  intros Hmax Hapi Hreach Hlk.
  pose proof (reachable_consistent_api MAX_TASKS exec Hmax Hapi s Hreach) as Hcons.
  pose proof (consistent_lookup_idle MAX_TASKS s n t Hcons Hlk) as Hidle.
  split; [exact Hidle|].
  exists (delete_at n t s). unfold delete_at.
  destruct (decide (NULL ≠ ptask t)) as [Ha|Hn].
  - exists (clear_task t).
    split; [rewrite (delete_task_lookup _ _ _ Hlk); unfold delete_at;
            by destruct (decide (NULL ≠ ptask t))|].
    split; [cbn; apply list_lookup_insert_eq; by eapply lookup_lt_Some|].
    cbn. by split_and!.
  - assert (Hnull : ptask t = NULL).
    { destruct (decide (ptask t = NULL)) as [|Hne]; [done|].
      exfalso. apply Hn. congruence. }
    destruct (Hidle Hnull) as (H1 & H2 & H3 & H4).
    exists t.
    split; [rewrite (delete_task_lookup _ _ _ Hlk); unfold delete_at;
            by destruct (decide (NULL ≠ ptask t))|].
    by split_and!.
Qed.

(** * The dispatch pass *)

Lemma calls_at_app (i : Z) (l1 l2 : list event) :
  calls_at i (l1 ++ l2) = (calls_at i l1 + calls_at i l2)%nat.
Proof. unfold calls_at. by rewrite filter_app, length_app. Qed.

Lemma calls_at_other (i j : Z) (evs : list event) :
  Forall (fun e => ev_index e = i) evs -> i ≠ j -> calls_at j evs = 0%nat.
Proof.
  intros Hall Hne. unfold calls_at. induction Hall as [|e evs He _ IH]; [done|].
  rewrite filter_cons. case_decide; [congruence|done].
Qed.

Lemma logs_at_ret {A : Type} (i : Z) (a : A) : logs_at i (mret a).
Proof.
  intros s a' s' H. inversion H; subst. exists []. by rewrite app_nil_r.
Qed.

Lemma logs_at_bind {A B : Type} (i : Z) (m : M A) (k : A -> M B) :
  logs_at i m -> (forall a, logs_at i (k a)) -> logs_at i (m ≫= k).
Proof.
  intros Hm Hk s b s' H. unfold mbind, M_bind in H.
  destruct (m s) as [[a s1]|f] eqn:Hms; [|discriminate].
  destruct (Hm _ _ _ Hms) as (evs1 & E1 & F1).
  destruct (Hk a _ _ _ H) as (evs2 & E2 & F2).
  exists (evs1 ++ evs2). split; [|by apply Forall_app].
  by rewrite E2, E1, app_assoc.
Qed.

Lemma logs_at_silent {A : Type} (i : Z) (m : M A) :
  (forall s a s', m s = Ok (a, s') -> calls s' = calls s) -> logs_at i m.
Proof.
  intros Hm s a s' H. exists []. rewrite app_nil_r. split; [by eapply Hm|done].
Qed.

Lemma logs_at_read_task (i j : Z) : logs_at i (read_task j).
Proof.
  apply logs_at_silent. intros s a s'. unfold read_task.
  destruct (slot (task_array s) j); [|discriminate]. by inversion 1.
Qed.

Lemma logs_at_modify_task (i j : Z) (f : task_t -> task_t) :
  logs_at i (modify_task j f).
Proof.
  apply logs_at_silent. intros s a s'. unfold modify_task.
  destruct (slot (task_array s) j); [|discriminate]. by inversion 1.
Qed.

Lemma logs_at_modify_counter (i : Z) (f : Z -> Z) : logs_at i (modify_counter f).
Proof. apply logs_at_silent. intros s a s'. by inversion 1. Qed.

Lemma logs_at_delete_task (i j : Z) : logs_at i (scheduler_delete_task j).
Proof.
  unfold scheduler_delete_task.
  apply logs_at_bind; [apply logs_at_read_task|]. intros t.
  apply logs_at_bind; [|intros; apply logs_at_ret].
  case_decide; [|apply logs_at_ret].
  repeat (apply logs_at_bind; [apply logs_at_modify_task|intros _]).
  apply logs_at_modify_counter.
Qed.

Section DispatchCalls.

Variable exec : Z -> Z -> sched -> sched.

Lemma logs_at_call_task (i : Z) : logs_at i (call_task exec i).
Proof.
  unfold call_task.
  apply logs_at_bind; [apply logs_at_read_task|]. intros t.
  case_decide; [by intros s a s'|].
  intros s a s' Hrun. inversion Hrun; subst. cbn.
  exists [Call (ptask t) i t]. split; [done|]. by apply Forall_singleton.
Qed.

(** Every call logged while slot [i] is dispatched carries index [i]. *)
Lemma logs_at_dispatch_body (i : Z) : logs_at i (dispatch_body exec i).
Proof.
  unfold dispatch_body.
  apply logs_at_bind; [apply logs_at_read_task|]. intros t.
  apply logs_at_bind.
  { case_decide; [apply logs_at_call_task|apply logs_at_ret]. }
  intros _. apply logs_at_bind; [apply logs_at_read_task|]. intros t1.
  case_decide; [|apply logs_at_ret].
  apply logs_at_bind; [apply logs_at_modify_task|]. intros _.
  apply logs_at_bind; [apply logs_at_call_task|]. intros _.
  apply logs_at_bind; [apply logs_at_read_task|]. intros t2.
  apply logs_at_bind.
  { case_decide; [apply logs_at_modify_task|apply logs_at_ret]. }
  intros _. apply logs_at_bind; [apply logs_at_read_task|]. intros t3.
  case_decide; [|apply logs_at_ret].
  apply logs_at_bind; [apply logs_at_delete_task|]. intros _.
  apply logs_at_ret.
Qed.

(** Slots the scan has passed are not called again in the same pass. *)
Lemma dispatch_loop_calls_below (fuel : nat) (i j : Z) (s s' : sched) :
  dispatch_loop exec fuel i s = Ok (tt, s') ->
  j < i ->
  calls_at j (calls s') = calls_at j (calls s).
Proof.
  revert i s. induction fuel as [|fuel IH]; intros i s Hrun Hlt.
  - cbn in Hrun. case_decide; [discriminate|]. by inversion Hrun.
  - cbn [dispatch_loop] in Hrun. case_decide; [|by inversion Hrun].
    unfold mbind, M_bind in Hrun.
    destruct (dispatch_body exec i s) as [[[] s1]|f] eqn:Hbody; [|discriminate].
    destruct (logs_at_dispatch_body i _ _ _ Hbody) as (evs & E & F).
    rewrite (IH (i + 1) s1 Hrun) by lia.
    rewrite E, calls_at_app, (calls_at_other i j evs F) by lia. lia.
Qed.

End DispatchCalls.

(** C2.  When the scan of a dispatch pass reaches a slot that holds a
    callback and has status [READY], the slot is set to [RUNNING], the
    callback is called once with the slot in that status, and the body
    returns.  With [t1] the slot as the callback left it: if the period is
    nonzero, the status becomes [STOPPED] when it still is [RUNNING] and is
    left alone otherwise; if the period is 0, [scheduler_delete_task] is then
    applied to the slot, which ends without callback.  Whatever the rest of
    the pass does, it completes with exactly one more logged call for this
    slot. *)
Theorem dispatch_ready_slot (exec : Z -> Z -> sched -> sched) (s : sched)
    (n : nat) (t : task_t) :
  keeps_table exec ->
  task_array s !! n = Some t ->
  status t = READY ->
  ptask t ≠ NULL ->
  let e := Call (ptask t) (Z.of_nat n) (set_status RUNNING t) in
  let s_ret :=
    set_calls (calls s ++ [e])
      (exec (ptask t) (Z.of_nat n)
         (log_call e (poke n (set_status RUNNING t) s))) in
  exists t1 s',
    task_array s_ret !! n = Some t1 /\
    dispatch_body exec (Z.of_nat n) s = Ok (tt, s') /\
    calls s' = calls s ++ [e] /\
    (0 ≠ period t1 -> status t1 = RUNNING ->
       s' = poke n (set_status STOPPED t1) s_ret) /\
    (0 ≠ period t1 -> status t1 ≠ RUNNING -> s' = s_ret) /\
    (0 = period t1 ->
       scheduler_delete_task (Z.of_nat n)
         (if decide (RUNNING = status t1)
          then poke n (set_status STOPPED t1) s_ret else s_ret)
       = Ok (SCH_STATUS_OK, s') /\
       exists t', task_array s' !! n = Some t' /\ ptask t' = NULL) /\
    (forall fuel s_end,
       Z.of_nat n < tasks_counter s ->
       dispatch_loop exec (S fuel) (Z.of_nat n) s = Ok (tt, s_end) ->
       calls_at (Z.of_nat n) (calls s_end)
       = S (calls_at (Z.of_nat n) (calls s))).
Proof.
  intros Hkeep Hlk Hrd Hne e s_ret.
  pose proof (lookup_lt_Some _ _ _ Hlk) as Hlt.
  assert (Hlen : (n < length (task_array s_ret))%nat).
  { unfold s_ret. cbn. rewrite Hkeep. cbn. by rewrite length_insert. }
  destruct (lookup_lt_is_Some_2 _ _ Hlen) as [t1 Hlk1].
  set (s2 := if decide (RUNNING = status t1)
             then poke n (set_status STOPPED t1) s_ret else s_ret).
  set (t2 := if decide (RUNNING = status t1) then set_status STOPPED t1 else t1).
  assert (Hlk2 : task_array s2 !! n = Some t2).
  { unfold s2, t2. case_decide; [by apply lookup_poke|done]. }
  assert (Hp2 : period t2 = period t1) by (unfold t2; by case_decide).
  assert (Hc2 : calls s2 = calls s ++ [e]) by (unfold s2; by case_decide).
  set (s' := if decide (0 = period t1) then delete_at n t2 s2 else s2).
  assert (Hbody : dispatch_body exec (Z.of_nat n) s = Ok (tt, s')).
  { unfold dispatch_body. mstep.
    rewrite (read_task_lookup _ _ _ Hlk).
    destruct (decide (status t = RUN_ALWAYS)); [congruence|].
    rewrite (read_task_lookup _ _ _ Hlk).
    destruct (decide (status t = READY)); [|done].
    rewrite (modify_task_poke _ _ _ _ Hlk).
    assert (Hcall : call_task exec (Z.of_nat n) (poke n (set_status RUNNING t) s)
                    = Ok (tt, s_ret)).
    { by rewrite (call_task_run exec _ n (set_status RUNNING t))
        by (done || by apply lookup_poke). }
    rewrite Hcall.
    rewrite (read_task_lookup _ _ _ Hlk1).
    assert (Hmod : (if decide (RUNNING = status t1)
                    then modify_task (Z.of_nat n) (set_status STOPPED)
                    else fun s0 : sched => Ok (tt, s0)) s_ret = Ok (tt, s2)).
    { unfold s2. case_decide; [by apply modify_task_poke|done]. }
    rewrite Hmod. rewrite (read_task_lookup _ _ _ Hlk2). rewrite Hp2.
    unfold s'. destruct (decide (0 = period t1)); [|done].
    by rewrite (delete_task_lookup _ _ _ Hlk2). }
  assert (Hcalls : calls s' = calls s ++ [e]).
  { unfold s', delete_at. repeat case_decide; done. }
  exists t1, s'. split_and!; try done.
  - intros Hp Hst. unfold s', s2. repeat case_decide; congruence.
  - intros Hp Hst. unfold s', s2. repeat case_decide; congruence.
  - intros Hp. fold s2. unfold s'. case_decide; [|done].
    split; [by apply delete_task_lookup|].
    unfold delete_at. case_decide.
    + exists (clear_task t2). split; [|done].
      cbn. apply list_lookup_insert_eq. by eapply lookup_lt_Some.
    + exists t2. split; [done|].
      destruct (decide (ptask t2 = NULL)); [done|]. exfalso. eauto.
  - intros fuel s_end Hin Hrun. cbn [dispatch_loop] in Hrun.
    case_decide; [|lia]. unfold mbind, M_bind in Hrun. rewrite Hbody in Hrun.
    rewrite (dispatch_loop_calls_below exec fuel _ (Z.of_nat n) _ _ Hrun) by lia.
    rewrite Hcalls, calls_at_app.
    assert (He : calls_at (Z.of_nat n) [e] = 1%nat).
    { unfold calls_at. rewrite filter_cons. cbn [ev_index e].
      case_decide; [done|congruence]. }
    rewrite He. lia.
Qed.

(** * Countdown of a periodic task *)

Lemma ticks_run (MAX_TASKS : Z) (k : nat) (s : sched) :
  table_ok MAX_TASKS s ->
  ticks MAX_TASKS k s
  = Ok (tt, set_task_array (Nat.iter k tick_task <$> task_array s) s).
Proof.
  intros Hok. induction k as [|k IH].
  - cbn. rewrite list_fmap_id. by rewrite set_task_array_same.
  - cbn [ticks]. mstep. rewrite IH.
    rewrite scheduler_update_run by (unfold table_ok; cbn; by rewrite length_fmap).
    cbn. by rewrite <- list_fmap_compose.
Qed.

Lemma add_task_success (MAX_TASKS : Z) (s s1 : sched) (task : Z)
    (name : option string) (task_param d p : Z) :
  table_ok MAX_TASKS s ->
  scheduler_add_task MAX_TASKS task name task_param d p s = Ok (SCH_STATUS_OK, s1) ->
  0 <= tasks_counter s < MAX_TASKS /\
  ¬ has_task task (task_array s) /\
  s1 = set_flags (BIT_CLEAR (scheduler_status s) SCH_TASK_CREATE_FLAG)
         (set_counter (u32 (tasks_counter s + 1))
            (poke (Z.to_nat (tasks_counter s))
               (new_task (tasks_counter s) task name task_param d p) s)).
Proof.
  intros Hok Hrun. rewrite scheduler_add_task_run in Hrun by done.
  repeat case_decide; try discriminate. inversion Hrun. split_and!; (done || lia).
Qed.

(** The slot a successful registration has filled, [k] ticks later. *)
Lemma registered_slot_after_ticks (MAX_TASKS : Z) (s s1 : sched) (task : Z)
    (name : option string) (task_param d p : Z) (k : nat) :
  table_ok MAX_TASKS s ->
  scheduler_add_task MAX_TASKS task name task_param d p s = Ok (SCH_STATUS_OK, s1) ->
  exists sk,
    ticks MAX_TASKS k s1 = Ok (tt, sk) /\
    task_array sk !! Z.to_nat (tasks_counter s)
    = Some (Nat.iter k tick_task
              (new_task (tasks_counter s) task name task_param d p)).
Proof.
  intros Hok Hadd.
  destruct (add_task_success _ _ _ _ _ _ _ _ Hok Hadd) as (Hc & _ & ->).
  eexists. split.
  - apply ticks_run. unfold table_ok. cbn. by rewrite length_insert.
  - cbn. rewrite list_lookup_fmap, list_lookup_insert_eq; [done|].
    rewrite Hok. lia.
Qed.

Section Countdown.

Variables (c task : Z) (name : option string) (task_param d p : Z).
Hypothesis task_not_null : task ≠ NULL.
Hypothesis d_range : is_u32 d.
Hypothesis p_positive : 0 < p.
Hypothesis p_range : is_u32 p.

Let t0 : task_t := new_task c task name task_param d p.

Lemma countdown_before_due (k : nat) :
  Z.of_nat k <= d ->
  Nat.iter k tick_task t0
  = mk_task task name (d - Z.of_nat k) p STOPPED (mk_handler c task_param).
Proof.
  induction k as [|k IH]; intros Hk.
  - cbn. unfold t0, new_task. case_decide; [lia|]. f_equal. lia.
  - cbn [Nat.iter nat_rect]. change (nat_rect _ _ _ k) with (Nat.iter k tick_task t0).
    rewrite IH by lia. unfold tick_task. cbn.
    case_decide; [|congruence]. case_decide; [lia|].
    unfold set_delay. cbn. f_equal.
    rewrite u32_id by (unfold is_u32 in *; lia). lia.
Qed.

Lemma countdown_due :
  Nat.iter (S (Z.to_nat d)) tick_task t0
  = mk_task task name p p READY (mk_handler c task_param).
Proof.
  cbn [Nat.iter nat_rect].
  change (nat_rect _ _ _ (Z.to_nat d)) with (Nat.iter (Z.to_nat d) tick_task t0).
  rewrite countdown_before_due by (unfold is_u32 in *; lia).
  unfold tick_task. cbn.
  case_decide; [|congruence]. case_decide; [|unfold is_u32 in *; lia].
  destruct (decide (STOPPED ≠ RUN_ALWAYS ∧ STOPPED ≠ SUSPENDED)) as [_|Hn];
    [|exfalso; apply Hn; done].
  cbn. case_decide; [|lia]. unfold set_delay. cbn. done.
Qed.

Lemma countdown_bounds (k : nat) :
  let t := Nat.iter k tick_task t0 in
  ptask t = task /\ period t = p /\
  0 <= delay t <= Z.max (d - Z.of_nat k) p.
Proof.
  induction k as [|k IH].
  - cbn. unfold is_u32 in *. split_and!; try done; lia.
  - cbn [Nat.iter nat_rect].
    change (nat_rect _ _ _ k) with (Nat.iter k tick_task t0).
    cbn zeta in IH. destruct IH as (Hp & Hper & Hd).
    remember (Nat.iter k tick_task t0) as t eqn:Et. clear Et.
    cbn zeta. unfold tick_task.
    case_decide; [|congruence]. case_decide.
    + assert (Hper' : period (if decide (status t ≠ RUN_ALWAYS ∧ status t ≠ SUSPENDED)
                             then set_status READY t else t) = p)
        by (by case_decide).
      rewrite Hper'. destruct (decide (p > 0)) as [_|Hn]; [|lia].
      case_decide; cbn [delay ptask period set_delay set_status];
        split_and!; try done; lia.
    + cbn [delay ptask period set_delay set_status]. split_and!; try done.
      * unfold u32. apply Z.mod_pos_bound. lia.
      * rewrite u32_id by (unfold is_u32 in *; lia). lia.
Qed.

Lemma countdown_step (t : task_t) :
  ptask t = task -> period t = p -> is_u32 (delay t) ->
  (delay t = 0 -> delay (tick_task t) = p) /\
  (delay t ≠ 0 -> delay (tick_task t) = delay t - 1).
Proof.
  intros Hp Hper Hd. unfold tick_task.
  case_decide; [|congruence]. split; intros Hz.
  - case_decide; [|congruence].
    assert (Hper' : period (if decide (status t ≠ RUN_ALWAYS ∧ status t ≠ SUSPENDED)
                             then set_status READY t else t) = p)
      by (by case_decide).
    rewrite Hper'. destruct (decide (p > 0)) as [_|Hn]; [|lia].
    by case_decide.
  - case_decide; [congruence|]. cbn.
    apply u32_id. unfold is_u32 in *. lia.
Qed.

End Countdown.

(** C3, as the code has it.  After a successful registration of a callback
    with delay [d > 0] and period [p > 0], and with nothing but ticks in
    between, the task is still [STOPPED] after each of the first [d] ticks,
    its delay being [d] minus the number of ticks, so 0 after tick [d]; it is
    tick [d + 1] that sets the status to [READY] and the delay to [p]. *)
Theorem ready_one_tick_after_delay (MAX_TASKS : Z) (s s1 : sched) (task : Z)
    (name : option string) (task_param d p : Z) :
  table_ok MAX_TASKS s ->
  task ≠ NULL ->
  is_u32 d -> 0 < d -> 0 < p ->
  scheduler_add_task MAX_TASKS task name task_param d p s = Ok (SCH_STATUS_OK, s1) ->
  (forall k : nat, Z.of_nat k <= d ->
     exists sk t,
       ticks MAX_TASKS k s1 = Ok (tt, sk) /\
       task_array sk !! Z.to_nat (tasks_counter s) = Some t /\
       ptask t = task /\ status t = STOPPED /\ delay t = d - Z.of_nat k) /\
  (exists sk t,
     ticks MAX_TASKS (S (Z.to_nat d)) s1 = Ok (tt, sk) /\
     task_array sk !! Z.to_nat (tasks_counter s) = Some t /\
     ptask t = task /\ status t = READY /\ delay t = p).
Proof.
  intros Hok Hnn Hd Hdpos Hp Hadd. split.
  - intros k Hk.
    destruct (registered_slot_after_ticks _ _ _ _ _ _ _ _ k Hok Hadd)
      as (sk & Hrun & Hlk).
    rewrite countdown_before_due in Hlk by done.
    eexists _, _. split_and!; [exact Hrun|exact Hlk|done..].
  - destruct (registered_slot_after_ticks _ _ _ _ _ _ _ _ (S (Z.to_nat d)) Hok Hadd)
      as (sk & Hrun & Hlk).
    rewrite countdown_due in Hlk by done.
    eexists _, _. split_and!; [exact Hrun|exact Hlk|done..].
Qed.

(** C8, as the code has it.  A registration stores the delay it is given, so
    a periodic task (period [p > 0]) registered with delay [d] has, after [k]
    further ticks, a delay between 0 and the larger of [d - k] and [p]: within
    [[0, p]] from the start when [d <= p], and from tick [d - p] on otherwise.
    The tick that finds the delay at 0 sets it to the period; every other tick
    takes one from it. *)
Theorem periodic_delay_range (MAX_TASKS : Z) (s s1 : sched) (task : Z)
    (name : option string) (task_param d p : Z) (k : nat) :
  table_ok MAX_TASKS s ->
  task ≠ NULL ->
  is_u32 d -> is_u32 p -> 0 < p ->
  scheduler_add_task MAX_TASKS task name task_param d p s = Ok (SCH_STATUS_OK, s1) ->
  exists sk t sk' t',
    ticks MAX_TASKS k s1 = Ok (tt, sk) /\
    task_array sk !! Z.to_nat (tasks_counter s) = Some t /\
    ptask t = task /\ period t = p /\
    0 <= delay t <= Z.max (d - Z.of_nat k) p /\
    ticks MAX_TASKS (S k) s1 = Ok (tt, sk') /\
    task_array sk' !! Z.to_nat (tasks_counter s) = Some t' /\
    (delay t = 0 -> delay t' = p) /\
    (delay t ≠ 0 -> delay t' = delay t - 1).
Proof.
  intros Hok Hnn Hd Hpr Hp Hadd.
  destruct (registered_slot_after_ticks _ _ _ _ _ _ _ _ k Hok Hadd)
    as (sk & Hrun & Hlk).
  destruct (registered_slot_after_ticks _ _ _ _ _ _ _ _ (S k) Hok Hadd)
    as (sk' & Hrun' & Hlk').
  pose proof (countdown_bounds (tasks_counter s) task name task_param d p
                Hnn Hd Hp Hpr k) as (Hpt & Hper & Hdel).
  eexists _, _, _, _.
  split; [exact Hrun|]. split; [exact Hlk|].
  split; [exact Hpt|]. split; [exact Hper|]. split; [exact Hdel|].
  split; [exact Hrun'|]. split; [exact Hlk'|].
  apply (countdown_step task p Hnn Hp); [exact Hpt|exact Hper|].
  unfold is_u32 in *. lia.
Qed.

(** * Where the code departs from the specification *)

(** C3, counterexample.  Capacity 4, task B registered with delay 2 and
    period 5: after the second tick B is still [STOPPED] and its delay is 0,
    not [READY] with delay 5. *)
Lemma second_tick_not_ready :
  exists s1 s2 t,
    scheduler_add_task 4 200 (Some "B"%string) 8 2 5 (boot 4) = Ok (SCH_STATUS_OK, s1) /\
    ticks 4 2 s1 = Ok (tt, s2) /\
    task_array s2 !! 0%nat = Some t /\
    ptask t = 200 /\ status t = STOPPED /\ delay t = 0 /\
    ¬ (status t = READY /\ delay t = 5).
Proof.
  eexists _, _, _. split_and!; [vm_compute; reflexivity..|].
  intros [H _]. discriminate H.
Qed.

(** C8, counterexample.  Capacity 4, a periodic task registered with delay 10
    and period 5: right after the registration its delay is 10, outside
    [[0, 5]]. *)
Lemma registered_delay_above_period :
  exists s1 t,
    scheduler_add_task 4 100 (Some "A"%string) 7 10 5 (boot 4) = Ok (SCH_STATUS_OK, s1) /\
    task_array s1 !! 0%nat = Some t /\
    ptask t = 100 /\ period t = 5 /\ delay t = 10 /\
    ¬ (0 <= delay t <= period t).
Proof.
  eexists _, _. split_and!; [vm_compute; reflexivity..|].
  cbn. lia.
Qed.

(** C9, counterexample.  Capacity 4, a task registered with period 5 and name
    "A" and then removed: the slot has no callback, yet its period is still 5
    and its name still "A". *)
Lemma removed_slot_keeps_period_and_name :
  exists s0 s1 s2 t,
    scheduler_init 4 (boot 4) = Ok (SCH_STATUS_OK, s0) /\
    scheduler_add_task 4 100 (Some "A"%string) 7 3 5 s0 = Ok (SCH_STATUS_OK, s1) /\
    scheduler_delete_task 0 s1 = Ok (SCH_STATUS_OK, s2) /\
    reachable 4 no_exec s2 /\
    task_array s2 !! 0%nat = Some t /\
    ptask t = NULL /\ period t = 5 /\ task_name t = Some "A"%string /\
    ¬ (period t = 0 /\ task_name t = None).
Proof.
  eexists _, _, _, _.
  split; [vm_compute; reflexivity|].
  split; [vm_compute; reflexivity|].
  split; [vm_compute; reflexivity|].
  split.
  { eapply reachable_step.
    - eapply reachable_step; [apply reachable_boot|].
      eapply (step_add 4 no_exec _ _ 100 (Some "A"%string) 7 3 5).
      vm_compute. reflexivity.
    - eapply (step_delete 4 no_exec _ _ 0). vm_compute. reflexivity. }
  split_and!; [vm_compute; reflexivity..|].
  intros [H _]. discriminate H.
Qed.

(** C4, the code at the failing input.  Capacity 4; A and B are registered in
    slots 0 and 1 and A is removed.  B still sits in slot 1 but the task
    counter is 1, so slot 1 is outside the range a dispatch pass scans: after
    a tick has made B [READY] the pass calls nothing and leaves B [READY].  A
    registration of C is then written to slot 1, over B. *)
Theorem removal_strands_higher_slot :
  exists s0 s1 s2 s3 s4 s5 t3 t4 t5,
    scheduler_init 4 (boot 4) = Ok (SCH_STATUS_OK, s0) /\
    scheduler_add_task 4 100 (Some "A"%string) 7 0 1 s0 = Ok (SCH_STATUS_OK, s1) /\
    scheduler_add_task 4 200 (Some "B"%string) 8 0 1 s1 = Ok (SCH_STATUS_OK, s2) /\
    scheduler_delete_task 0 s2 = Ok (SCH_STATUS_OK, s3) /\
    task_array s3 !! 1%nat = Some t3 /\ ptask t3 = 200 /\
    tasks_counter s3 = 1 /\
    scheduler_update 4 s3 = Ok (SCH_STATUS_OK, s4) /\
    task_array s4 !! 1%nat = Some t4 /\ ptask t4 = 200 /\ status t4 = READY /\
    scheduler_dispatch_task 4 no_exec s4 = Ok (tt, s4) /\
    calls s4 = [] /\
    scheduler_add_task 4 300 (Some "C"%string) 9 0 1 s3 = Ok (SCH_STATUS_OK, s5) /\
    task_array s5 !! 1%nat = Some t5 /\ ptask t5 = 300 /\
    ¬ has_task 200 (task_array s5).
Proof.
  eexists _, _, _, _, _, _, _, _, _.
  split_and!; [vm_compute; reflexivity..|].
  vm_compute. intros H. repeat (apply Exists_cons in H as [H|H]; [discriminate H|]).
  by apply Exists_nil in H.
Qed.

(** C5, the code at the failing input.  Capacity 4; B is registered in slot 0,
    the continuous task A (period 0) in slot 1, and B is removed.  A is still
    registered with status [RUN_ALWAYS], but the task counter is 1 and a
    dispatch pass returns without having called anything. *)
Theorem continuous_task_not_dispatched :
  exists s0 s1 s2 s3 t,
    scheduler_init 4 (boot 4) = Ok (SCH_STATUS_OK, s0) /\
    scheduler_add_task 4 200 (Some "B"%string) 8 0 1 s0 = Ok (SCH_STATUS_OK, s1) /\
    scheduler_add_task 4 100 (Some "A"%string) 7 0 0 s1 = Ok (SCH_STATUS_OK, s2) /\
    scheduler_delete_task 0 s2 = Ok (SCH_STATUS_OK, s3) /\
    task_array s3 !! 1%nat = Some t /\
    ptask t = 100 /\ status t = RUN_ALWAYS /\
    tasks_counter s3 = 1 /\
    scheduler_dispatch_task 4 no_exec s3 = Ok (tt, s3) /\
    calls s3 = [].
Proof.
  eexists _, _, _, _, _.
  repeat (split; [vm_compute; reflexivity|]).
  vm_compute; reflexivity.
Qed.

(** * The theorems at work on the example table *)

Lemma scheduler_update_slot_witness :
  table_ok 4 demo_sched /\
  task_array demo_sched !! 1%nat = Some demo_periodic /\
  is_u32 (delay demo_periodic) /\
  exists s' t',
    scheduler_update 4 demo_sched = Ok (SCH_STATUS_OK, s') /\
    task_array s' !! 1%nat = Some t' /\
    status t' = READY /\ delay t' = 5.
Proof.
  assert (H1 : table_ok 4 demo_sched) by reflexivity.
  assert (H2 : task_array demo_sched !! 1%nat = Some demo_periodic) by reflexivity.
  assert (H3 : is_u32 (delay demo_periodic)) by (unfold is_u32; cbn; lia).
  split; [exact H1|]. split; [exact H2|]. split; [exact H3|].
  destruct (scheduler_update_slot 4 demo_sched 1 demo_periodic H1 H2 H3)
    as (s' & t' & Hrun & Hlk & _ & _ & Hdue & _).
  exists s', t'. split; [exact Hrun|]. split; [exact Hlk|].
  destruct Hdue as (_ & Hst & Hper & _); [discriminate|reflexivity|].
  split.
  - apply Hst; discriminate.
  - apply Hper. reflexivity.
Defined.

Lemma scheduler_add_task_duplicate_witness :
  table_ok 4 demo_sched /\
  task_array demo_sched !! 1%nat = Some demo_periodic /\
  ptask demo_periodic ≠ NULL /\
  exists s',
    scheduler_add_task 4 200 (Some "B2"%string) 9 1 1 demo_sched = Ok (SCH_ERROR, s') /\
    tasks_counter s' = 2 /\
    task_array s' = task_array demo_sched.
Proof.
  assert (H1 : table_ok 4 demo_sched) by reflexivity.
  assert (H2 : task_array demo_sched !! 1%nat = Some demo_periodic) by reflexivity.
  assert (H3 : ptask demo_periodic ≠ NULL) by discriminate.
  split; [exact H1|]. split; [exact H2|]. split; [exact H3|].
  exact (scheduler_add_task_duplicate 4 demo_sched 1 demo_periodic 200
           (Some "B2"%string) 9 1 1 H1 H2 H3 eq_refl).
Defined.

Lemma tasks_counter_within_capacity_witness :
  0 < 4 < 2 ^ 31 /\
  Forall (in_table 4) [Register 100 (Some "A"%string) 7 0 0; Remove 0; Remove 3] /\
  exists s,
    perform_all 4 [Register 100 (Some "A"%string) 7 0 0; Remove 0; Remove 3] (boot 4)
    = Ok (tt, s) /\
    0 <= tasks_counter s <= 4.
Proof.
  assert (H1 : 0 < 4 < 2 ^ 31) by lia.
  assert (H2 : Forall (in_table 4)
                 [Register 100 (Some "A"%string) 7 0 0; Remove 0; Remove 3]).
  { repeat apply Forall_cons_2; try apply Forall_nil_2; cbn; try exact I; lia. }
  split; [exact H1|]. split; [exact H2|].
  destruct (tasks_counter_within_capacity 4 _ H1 H2)
    as (fresh & s & Hinit & _ & Hrun & Hb & _).
  rewrite fresh_state in Hinit. inversion Hinit; subst fresh.
  exists s. split; [exact Hrun|exact Hb].
Defined.

Lemma idle_slot_neutral_witness :
  0 < 4 < 2 ^ 31 /\ through_api 4 no_exec /\ reachable 4 no_exec demo_removed /\
  task_array demo_removed !! 0%nat
  = Some (mk_task NULL (Some "A"%string) 0 5 STOPPED (mk_handler 0 NULL)) /\
  (STOPPED = STOPPED /\ 0 = 0 /\ 0 = 0 /\ NULL = NULL) /\
  exists s' t',
    scheduler_delete_task 0 demo_removed = Ok (SCH_STATUS_OK, s') /\
    task_array s' !! 0%nat = Some t' /\
    ptask t' = NULL /\ period t' = 5 /\ task_name t' = Some "A"%string.
Proof.
  assert (H1 : 0 < 4 < 2 ^ 31) by lia.
  assert (H2 : through_api 4 no_exec) by (intros f i s; apply api_done).
  assert (H3 : reachable 4 no_exec demo_removed).
  { eapply reachable_step.
    - eapply reachable_step; [apply reachable_boot|].
      eapply (step_add 4 no_exec _ _ 100 (Some "A"%string) 7 3 5).
      vm_compute. reflexivity.
    - eapply (step_delete 4 no_exec _ _ 0). vm_compute. reflexivity. }
  assert (H4 : task_array demo_removed !! 0%nat
               = Some (mk_task NULL (Some "A"%string) 0 5 STOPPED (mk_handler 0 NULL)))
    by reflexivity.
  split; [exact H1|]. split; [exact H2|]. split; [exact H3|]. split; [exact H4|].
  destruct (idle_slot_neutral 4 no_exec demo_removed 0 _ H1 H2 H3 H4)
    as (Hidle & s' & t' & Hdel & Hlk & Hp & _ & _ & _ & _ & Hper & Hname).
  split; [exact (Hidle eq_refl)|].
  exists s', t'. split; [exact Hdel|]. split; [exact Hlk|]. split; [exact Hp|].
  split; [exact Hper|exact Hname].
Defined.

Lemma dispatch_ready_slot_witness :
  keeps_table no_exec /\
  task_array demo_sched_ready !! 1%nat = Some demo_ready /\
  status demo_ready = READY /\ ptask demo_ready ≠ NULL /\
  exists s',
    dispatch_body no_exec 1 demo_sched_ready = Ok (tt, s') /\
    calls s' = [Call 200 1 (set_status RUNNING demo_ready)].
Proof.
  assert (H1 : keeps_table no_exec) by (intros f i s; reflexivity).
  assert (H2 : task_array demo_sched_ready !! 1%nat = Some demo_ready) by reflexivity.
  assert (H3 : status demo_ready = READY) by reflexivity.
  assert (H4 : ptask demo_ready ≠ NULL) by discriminate.
  split; [exact H1|]. split; [exact H2|]. split; [exact H3|]. split; [exact H4|].
  destruct (dispatch_ready_slot no_exec demo_sched_ready 1 demo_ready H1 H2 H3 H4)
    as (t1 & s' & _ & Hbody & Hcalls & _).
  exists s'. split; [exact Hbody|exact Hcalls].
Defined.

Lemma ready_one_tick_after_delay_witness :
  table_ok 4 (boot 4) /\ 200 ≠ NULL /\ is_u32 2 /\ 0 < 2 /\ 0 < 5 /\
  scheduler_add_task 4 200 (Some "B"%string) 8 2 5 (boot 4)
  = Ok (SCH_STATUS_OK, demo_registered) /\
  exists sk t,
    ticks 4 3 demo_registered = Ok (tt, sk) /\
    task_array sk !! 0%nat = Some t /\
    ptask t = 200 /\ status t = READY /\ delay t = 5.
Proof.
  assert (H1 : table_ok 4 (boot 4)) by reflexivity.
  assert (H2 : 200 ≠ NULL) by discriminate.
  assert (H3 : is_u32 2) by (unfold is_u32; lia).
  assert (H4 : 0 < 2) by lia.
  assert (H5 : 0 < 5) by lia.
  assert (H6 : scheduler_add_task 4 200 (Some "B"%string) 8 2 5 (boot 4)
               = Ok (SCH_STATUS_OK, demo_registered)) by (vm_compute; reflexivity).
  split; [exact H1|]. split; [exact H2|]. split; [exact H3|].
  split; [exact H4|]. split; [exact H5|]. split; [exact H6|].
  exact (proj2 (ready_one_tick_after_delay 4 (boot 4) demo_registered 200
                  (Some "B"%string) 8 2 5 H1 H2 H3 H4 H5 H6)).
Defined.

Lemma periodic_delay_range_witness :
  table_ok 4 (boot 4) /\ 200 ≠ NULL /\ is_u32 2 /\ is_u32 5 /\ 0 < 5 /\
  scheduler_add_task 4 200 (Some "B"%string) 8 2 5 (boot 4)
  = Ok (SCH_STATUS_OK, demo_registered) /\
  exists sk t,
    ticks 4 1 demo_registered = Ok (tt, sk) /\
    task_array sk !! 0%nat = Some t /\
    0 <= delay t <= Z.max (2 - 1) 5.
Proof.
  assert (H1 : table_ok 4 (boot 4)) by reflexivity.
  assert (H2 : 200 ≠ NULL) by discriminate.
  assert (H3 : is_u32 2) by (unfold is_u32; lia).
  assert (H4 : is_u32 5) by (unfold is_u32; lia).
  assert (H5 : 0 < 5) by lia.
  assert (H6 : scheduler_add_task 4 200 (Some "B"%string) 8 2 5 (boot 4)
               = Ok (SCH_STATUS_OK, demo_registered)) by (vm_compute; reflexivity).
  split; [exact H1|]. split; [exact H2|]. split; [exact H3|].
  split; [exact H4|]. split; [exact H5|]. split; [exact H6|].
  destruct (periodic_delay_range 4 (boot 4) demo_registered 200
              (Some "B"%string) 8 2 5 1 H1 H2 H3 H4 H5 H6)
    as (sk & t & _ & _ & Hrun & Hlk & _ & _ & Hd & _).
  exists sk, t. split; [exact Hrun|]. split; [exact Hlk|exact Hd].
Defined.

(** * More on the scheduler functions *)

(** ** Initialisation of a used table *)

Lemma wipe_task_idle_table (l : list task_t) :
  active_slots l = 0 -> wipe_task <$> l = l.
Proof.
  induction l as [|t l IH]; intros H; [done|].
  cbn [active_slots] in H. pose proof (active_slots_nonneg l).
  cbn [fmap list_fmap]. unfold wipe_task at 1.
  destruct (decide (NULL ≠ ptask t)); [lia|].
  f_equal. apply IH. lia.
Qed.

Lemma ptask_wipe_task (t : task_t) : ptask (wipe_task t) = NULL.
Proof.
  unfold wipe_task. destruct (decide (NULL ≠ ptask t)) as [|Hn]; [done|].
  destruct (decide (ptask t = NULL)) as [|Hn']; [done|].
  exfalso. apply Hn. congruence.
Qed.

(** X1.  [scheduler_init] on any table returns [SCH_STATUS_OK], clears the flags
    and empties every slot.  It sets the task counter to 0 before it removes
    the tasks, so each removal counts down from there: on a table without
    tasks the counter ends at 0 and the table is untouched, on a table that
    held [k >= 1] tasks it ends at [2^32 - k]. *)
Theorem scheduler_init_clears (MAX_TASKS : Z) (s : sched) :
  0 < MAX_TASKS < 2 ^ 31 ->
  table_ok MAX_TASKS s ->
  exists s',
    scheduler_init MAX_TASKS s = Ok (SCH_STATUS_OK, s') /\
    scheduler_status s' = 0 /\
    table_ok MAX_TASKS s' /\
    Forall (fun t => ptask t = NULL) (task_array s') /\
    calls s' = calls s /\
    (active_slots (task_array s) = 0 ->
       tasks_counter s' = 0 /\ task_array s' = task_array s) /\
    (0 < active_slots (task_array s) ->
       tasks_counter s' = 2 ^ 32 - active_slots (task_array s)).
Proof.
  intros Hmax Hok. eexists. split; [by apply scheduler_init_run|].
  cbn. split_and!; try done.
  - unfold table_ok. cbn. by rewrite length_fmap.
  - apply Forall_fmap, Forall_true. intros t. apply ptask_wipe_task.
  - intros H0. rewrite H0. split; [done|]. by apply wipe_task_idle_table.
  - intros Hpos. pose proof (active_slots_le_length (task_array s)) as Hle.
    unfold table_ok in Hok. rewrite Hok in Hle.
    unfold u32.
    replace (0 - active_slots (task_array s))
      with ((2 ^ 32 - active_slots (task_array s)) + (-1) * 2 ^ 32) by lia.
    rewrite Z.mod_add by lia. apply Z.mod_small. lia.
Qed.

(** ** Removal *)

(** X2.  [scheduler_delete_task] is idempotent: a second removal of the same slot
    returns [SCH_STATUS_OK] again and changes nothing.  The first one touches
    no other slot, neither the flags nor the call log. *)
Theorem scheduler_delete_task_idempotent (s s1 : sched) (i r : Z) :
  scheduler_delete_task i s = Ok (r, s1) ->
  r = SCH_STATUS_OK /\
  scheduler_delete_task i s1 = Ok (SCH_STATUS_OK, s1) /\
  scheduler_status s1 = scheduler_status s /\
  calls s1 = calls s /\
  length (task_array s1) = length (task_array s) /\
  (forall j, j ≠ Z.to_nat i -> task_array s1 !! j = task_array s !! j).
Proof.
  intros Hrun.
  destruct (delete_task_Ok _ _ _ _ Hrun) as (n & t & -> & Hlk).
  rewrite (delete_task_lookup _ _ _ Hlk) in Hrun. inversion Hrun; subst. clear Hrun.
  pose proof (lookup_lt_Some _ _ _ Hlk) as Hlt.
  split; [done|]. unfold delete_at.
  destruct (decide (NULL ≠ ptask t)) as [Ha|Hi].
  - split_and!; try done.
    + erewrite delete_task_lookup by (cbn; by apply list_lookup_insert_eq).
      unfold delete_at. cbn [ptask clear_task set_status set_delay set_index
                              set_parameter set_ptask].
      destruct (decide (NULL ≠ NULL)); done.
    + cbn. by rewrite length_insert.
    + intros j Hj. cbn. rewrite Nat2Z.id in Hj.
      by rewrite list_lookup_insert_ne.
  - split_and!; try done.
    rewrite (delete_task_lookup _ _ _ Hlk). unfold delete_at.
    destruct (decide (NULL ≠ ptask t)); done.
Qed.

(** ** Registration *)

Lemma has_task_lookup (task : Z) (l : list task_t) :
  has_task task l <-> exists n t, l !! n = Some t /\ ptask t = task.
Proof.
  unfold has_task. rewrite Exists_exists. split.
  - intros (t & Hin & Hp). apply list_elem_of_lookup in Hin as [n Hn]. eauto.
  - intros (n & t & Hlk & Hp). exists t. split; [|done].
    by eapply list_elem_of_lookup_2.
Qed.

(** X3.  [scheduler_add_task] returns [SCH_STATUS_OK] exactly when the counter is
    below [MAX_TASKS] and no slot of the table holds the callback; otherwise
    it returns [SCH_ERROR] and leaves counter and table alone.  On success the
    record is written to the slot whose index is the counter, not to the
    first free slot, with status [RUN_ALWAYS] for period 0 and [STOPPED]
    otherwise; the other slots are untouched and the counter goes up by
    one. *)
Theorem scheduler_add_task_outcome (MAX_TASKS : Z) (s : sched) (task : Z)
    (name : option string) (task_param d p : Z) :
  table_ok MAX_TASKS s ->
  0 <= tasks_counter s ->
  exists r s',
    scheduler_add_task MAX_TASKS task name task_param d p s = Ok (r, s') /\
    (r = SCH_STATUS_OK <->
       tasks_counter s < MAX_TASKS /\ ¬ has_task task (task_array s)) /\
    (r ≠ SCH_STATUS_OK ->
       r = SCH_ERROR /\ tasks_counter s' = tasks_counter s /\
       task_array s' = task_array s) /\
    (r = SCH_STATUS_OK ->
       tasks_counter s' = u32 (tasks_counter s + 1) /\
       task_array s' !! Z.to_nat (tasks_counter s)
       = Some (mk_task task name d p
                 (if decide (0 = p) then RUN_ALWAYS else STOPPED)
                 (mk_handler (tasks_counter s) task_param)) /\
       forall j, j ≠ Z.to_nat (tasks_counter s) ->
                 task_array s' !! j = task_array s !! j).
Proof.
  intros Hok Hc. rewrite scheduler_add_task_run by done.
  destruct (decide (tasks_counter s < MAX_TASKS)) as [Hlt|Hge].
  - destruct (decide (has_task task (task_array s))) as [Hdup|Hnew].
    + eexists _, _. split; [done|]. cbn. split; [|split].
      * split; [discriminate|]. intros [_ H]. done.
      * done.
      * discriminate.
    + destruct (decide (0 <= tasks_counter s)); [|lia].
      eexists _, _. split; [done|]. cbn. split; [|split].
      * done.
      * done.
      * intros _. split; [done|]. split.
        -- apply list_lookup_insert_eq. rewrite Hok. lia.
        -- intros j Hj. by rewrite list_lookup_insert_ne.
  - eexists _, _. split; [done|]. cbn. split; [|split].
    + split; [discriminate|]. intros [H _]. lia.
    + done.
    + discriminate.
Qed.

(** X4.  A callback that has just been registered cannot be registered again:
    whatever the name, parameter, delay and period of the second call, it
    returns [SCH_ERROR] and leaves counter and table as the first call left
    them. *)
Theorem registered_twice_rejected (MAX_TASKS : Z) (s s1 : sched) (task : Z)
    (name name' : option string) (task_param d p task_param' d' p' : Z) :
  table_ok MAX_TASKS s ->
  scheduler_add_task MAX_TASKS task name task_param d p s = Ok (SCH_STATUS_OK, s1) ->
  exists s2,
    scheduler_add_task MAX_TASKS task name' task_param' d' p' s1 = Ok (SCH_ERROR, s2) /\
    tasks_counter s2 = tasks_counter s1 /\
    task_array s2 = task_array s1.
Proof.
  intros Hok Hadd.
  destruct (add_task_success _ _ _ _ _ _ _ _ Hok Hadd) as (Hc & _ & ->).
  assert (Hok1 : forall f c l, table_ok MAX_TASKS
                   (set_flags f (set_counter c (poke (Z.to_nat (tasks_counter s)) l s)))).
  { intros. unfold table_ok. cbn. by rewrite length_insert. }
  rewrite scheduler_add_task_run by apply Hok1.
  assert (Hdup : has_task task
            (task_array (set_flags (BIT_CLEAR (scheduler_status s) SCH_TASK_CREATE_FLAG)
               (set_counter (u32 (tasks_counter s + 1))
                  (poke (Z.to_nat (tasks_counter s))
                     (new_task (tasks_counter s) task name task_param d p) s))))).
  { apply has_task_lookup.
    exists (Z.to_nat (tasks_counter s)),
           (new_task (tasks_counter s) task name task_param d p).
    split; [|reflexivity].
    cbn. apply list_lookup_insert_eq. rewrite Hok. lia. }
  case_decide.
  - destruct (decide (has_task task _)); [|done]. by eexists.
  - by eexists.
Qed.

(** X5.  Removing the slot a registration has just filled undoes it as far as
    the scheduler can tell: the counter is back at its value, the callback is
    no longer in the table and no other slot has changed. *)
Theorem add_then_delete (MAX_TASKS : Z) (s s1 : sched) (task : Z)
    (name : option string) (task_param d p : Z) :
  table_ok MAX_TASKS s ->
  is_u32 (tasks_counter s) ->
  task ≠ NULL ->
  scheduler_add_task MAX_TASKS task name task_param d p s = Ok (SCH_STATUS_OK, s1) ->
  exists s2,
    scheduler_delete_task (tasks_counter s) s1 = Ok (SCH_STATUS_OK, s2) /\
    tasks_counter s2 = tasks_counter s /\
    ¬ has_task task (task_array s2) /\
    (forall j, j ≠ Z.to_nat (tasks_counter s) ->
               task_array s2 !! j = task_array s !! j).
Proof.
  intros Hok Hu Hnn Hadd.
  destruct (add_task_success _ _ _ _ _ _ _ _ Hok Hadd) as (Hc & Hnew & ->).
  set (n := Z.to_nat (tasks_counter s)).
  assert (Hn : (n < length (task_array s))%nat) by (rewrite Hok; lia).
  eexists. split.
  { rewrite <- (Z2Nat.id (tasks_counter s)) at 1 by lia.
    apply delete_task_lookup. cbn. by apply list_lookup_insert_eq. }
  unfold delete_at. cbn [ptask new_task].
  destruct (decide (NULL ≠ task)) as [_|Hn']; [|exfalso; apply Hn'; congruence].
  cbn. rewrite list_insert_insert_eq. split_and!.
  - unfold u32. rewrite Zminus_mod_idemp_l.
    replace (tasks_counter s + 1 - 1) with (tasks_counter s) by lia.
    by apply Z.mod_small.
  - intros Hhas. apply has_task_lookup in Hhas as (j & t & Hlk & Hp).
    destruct (decide (j = n)) as [->|Hj].
    + rewrite list_lookup_insert_eq in Hlk by done.
      inversion Hlk as [Ht]. apply Hnn. rewrite <- Hp, <- Ht. reflexivity.
    + rewrite list_lookup_insert_ne in Hlk by done.
      apply Hnew. apply has_task_lookup. eauto.
  - intros j Hj. by rewrite list_lookup_insert_ne.
Qed.

(** ** Sequences of ticks *)

Lemma ticks_lookup (MAX_TASKS : Z) (k : nat) (s : sched) (n : nat) (t : task_t) :
  table_ok MAX_TASKS s ->
  task_array s !! n = Some t ->
  exists sk,
    ticks MAX_TASKS k s = Ok (tt, sk) /\
    task_array sk !! n = Some (Nat.iter k tick_task t) /\
    tasks_counter sk = tasks_counter s /\
    scheduler_status sk = scheduler_status s /\
    calls sk = calls s.
Proof.
  intros Hok Hlk. eexists. split; [by apply ticks_run|].
  cbn [task_array set_task_array tasks_counter scheduler_status calls].
  split; [rewrite list_lookup_fmap, Hlk; reflexivity|done].
Qed.

Lemma tick_task_status (t : task_t) :
  (status (tick_task t) = status t \/ status (tick_task t) = READY) /\
  (status t = RUN_ALWAYS \/ status t = SUSPENDED \/ status t = READY ->
   status (tick_task t) = status t) /\
  same_identity t (tick_task t).
Proof.
  unfold tick_task, same_identity.
  destruct (decide (NULL ≠ ptask t)); [|split_and!; auto].
  destruct (decide (0 = delay t)); [|cbn; split_and!; auto].
  destruct (decide (status t ≠ RUN_ALWAYS ∧ status t ≠ SUSPENDED)) as [[H1 H2]|Hn];
    cbn [period set_status]; destruct (decide (period t > 0)); cbn;
    split_and!; auto; intros [?|[?|?]]; congruence.
Qed.

Lemma iter_tick_task_status (k : nat) (t : task_t) :
  (status (Nat.iter k tick_task t) = status t \/
   status (Nat.iter k tick_task t) = READY) /\
  (status t = RUN_ALWAYS \/ status t = SUSPENDED \/ status t = READY ->
   status (Nat.iter k tick_task t) = status t) /\
  same_identity t (Nat.iter k tick_task t).
Proof.
  induction k as [|k IH]; [cbn; unfold same_identity; split_and!; auto|].
  cbn [Nat.iter nat_rect]. change (nat_rect _ _ _ k) with (Nat.iter k tick_task t).
  destruct IH as (IH1 & IH2 & IH3 & IH4 & IH5 & IH6).
  destruct (tick_task_status (Nat.iter k tick_task t))
    as (T1 & T2 & T3 & T4 & T5 & T6).
  split; [|split].
  - destruct T1 as [T1|T1]; [|by right]. rewrite T1. exact IH1.
  - intros H. rewrite T2; [by apply IH2|]. rewrite (IH2 H). exact H.
  - unfold same_identity. split_and!; congruence.
Qed.

(** X6.  However many ticks go by, the tick function changes the status of a slot
    only to [READY]: a task that is [RUN_ALWAYS] or [SUSPENDED] keeps its
    status, a task that is [READY] and has not been dispatched stays [READY]
    (missed periods are not counted), and callback, name, period and handle
    of every slot stay as they are, as do the task counter, the flags and the
    call log. *)
Theorem ticks_only_make_ready (MAX_TASKS : Z) (k : nat) (s : sched) (n : nat)
    (t : task_t) :
  table_ok MAX_TASKS s ->
  task_array s !! n = Some t ->
  exists sk tk,
    ticks MAX_TASKS k s = Ok (tt, sk) /\
    task_array sk !! n = Some tk /\
    (status tk = status t \/ status tk = READY) /\
    (status t = RUN_ALWAYS \/ status t = SUSPENDED \/ status t = READY ->
     status tk = status t) /\
    same_identity t tk /\
    tasks_counter sk = tasks_counter s /\
    scheduler_status sk = scheduler_status s /\
    calls sk = calls s.
Proof.
  intros Hok Hlk.
  destruct (ticks_lookup MAX_TASKS k s n t Hok Hlk) as (sk & Hrun & Hk & Hc & Hf & Hl).
  destruct (iter_tick_task_status k t) as (H1 & H2 & H3).
  exists sk, (Nat.iter k tick_task t). by split_and!.
Qed.

Lemma iter_tick_task_countdown (k : nat) (t : task_t) :
  NULL ≠ ptask t ->
  is_u32 (delay t) ->
  Z.of_nat k <= delay t ->
  Nat.iter k tick_task t = set_delay (delay t - Z.of_nat k) t.
Proof.
  intros Ha Hd. induction k as [|k IH]; intros Hk.
  - cbn. destruct t. unfold set_delay. cbn. f_equal. lia.
  - cbn [Nat.iter nat_rect]. change (nat_rect _ _ _ k) with (Nat.iter k tick_task t).
    rewrite IH by lia. unfold tick_task.
    cbn [ptask delay set_delay].
    destruct (decide (NULL ≠ ptask t)); [|done].
    destruct (decide (0 = delay t - Z.of_nat k)); [lia|].
    unfold set_delay. cbn. f_equal.
    rewrite u32_id by (unfold is_u32 in *; lia). lia.
Qed.

(** X7.  A registered task whose delay is [d] is only counted down by the next
    [d] ticks: after [k <= d] of them its delay is [d - k] and nothing else in
    the slot has changed, whatever its status. *)
Theorem ticks_count_down (MAX_TASKS : Z) (k : nat) (s : sched) (n : nat)
    (t : task_t) :
  table_ok MAX_TASKS s ->
  task_array s !! n = Some t ->
  ptask t ≠ NULL ->
  is_u32 (delay t) ->
  Z.of_nat k <= delay t ->
  exists sk,
    ticks MAX_TASKS k s = Ok (tt, sk) /\
    task_array sk !! n = Some (set_delay (delay t - Z.of_nat k) t).
Proof.
  intros Hok Hlk Ha Hd Hk.
  destruct (ticks_lookup MAX_TASKS k s n t Hok Hlk) as (sk & Hrun & Hn & _).
  exists sk. split; [done|].
  rewrite Hn. f_equal. apply iter_tick_task_countdown; [congruence|done..].
Qed.

(** X8.  A periodic task recurs every [period + 1] ticks.  When its delay is 0 the
    next tick marks it [READY] and reloads the delay with the period [p]; the
    [p] ticks after that count the delay down to 0 again, and only the tick
    after those reloads it. *)
Theorem periodic_task_cycle (MAX_TASKS : Z) (k : nat) (s : sched) (n : nat)
    (t : task_t) :
  table_ok MAX_TASKS s ->
  task_array s !! n = Some t ->
  ptask t ≠ NULL ->
  delay t = 0 ->
  0 < period t < 2 ^ 32 ->
  status t ≠ RUN_ALWAYS -> status t ≠ SUSPENDED ->
  Z.of_nat k <= period t ->
  exists sk,
    ticks MAX_TASKS (S k) s = Ok (tt, sk) /\
    task_array sk !! n
    = Some (set_delay (period t - Z.of_nat k) (set_status READY t)).
Proof.
  intros Hok Hlk Ha Hd Hp Hs1 Hs2 Hk.
  destruct (ticks_lookup MAX_TASKS (S k) s n t Hok Hlk) as (sk & Hrun & Hn & _).
  exists sk. split; [done|]. rewrite Hn. f_equal.
  rewrite Nat.iter_succ_r.
  assert (Hfirst : tick_task t = set_delay (period t) (set_status READY t)).
  { unfold tick_task.
    destruct (decide (NULL ≠ ptask t)) as [_|Hn']; [|exfalso; apply Hn'; congruence].
    destruct (decide (0 = delay t)); [|lia].
    destruct (decide (status t ≠ RUN_ALWAYS ∧ status t ≠ SUSPENDED)) as [_|Hn'];
      [|exfalso; by apply Hn'].
    cbn [period set_status]. destruct (decide (period t > 0)); [done|lia]. }
  rewrite Hfirst.
  rewrite iter_tick_task_countdown; cbn; [done|congruence|unfold is_u32; lia|lia].
Qed.

(** ** The dispatch pass in closed form *)

Lemma set_calls_nil (s : sched) : set_calls (calls s ++ []) s = s.
Proof. destruct s. unfold set_calls. cbn. by rewrite app_nil_r. Qed.

Lemma dispatch_quiet_callable (s : sched) (n : nat) (t : task_t) :
  task_array s !! n = Some t ->
  callable t ->
  dispatch_quiet n t s
  = Ok (tt, set_calls (calls s ++ events_of (Z.of_nat n) t) (poke n (settle t) s)).
Proof.
  intros Hlk [Hcall Hper]. unfold dispatch_quiet, events_of, settle.
  destruct (decide (status t = RUN_ALWAYS)) as [Hra|Hra].
  - destruct (decide (ptask t = NULL)) as [Hn|_]; [exfalso; by apply Hcall; auto|].
    destruct (decide (status t = READY)); [congruence|].
    by rewrite (poke_same _ _ _ Hlk).
  - destruct (decide (status t = READY)) as [Hrd|Hrd].
    + destruct (decide (ptask t = NULL)) as [Hn|_]; [exfalso; by apply Hcall; auto|].
      cbn [period set_status].
      destruct (decide (0 = period t)) as [Hz|_]; [exfalso; by apply Hper|].
      reflexivity.
    + rewrite (poke_same _ _ _ Hlk). by rewrite set_calls_nil.
Qed.

Section Pass.

Variable exec : Z -> Z -> sched -> sched.
Hypothesis exec_quiet : quiet exec.

Lemma dispatch_loop_pass (l2 l1 : list task_t) (s : sched) :
  task_array s = l1 ++ l2 ->
  Forall callable l2 ->
  dispatch_loop exec (length l2) (Z.of_nat (length l1)) s
  = match pass (Z.of_nat (length l1)) (tasks_counter s) l2 with
    | Some (l2', evs) =>
        Ok (tt, set_calls (calls s ++ evs) (set_task_array (l1 ++ l2') s))
    | None => Fault OutOfBounds
    end.
Proof.
  revert l1 s. induction l2 as [|t l2 IH]; intros l1 s Hl Hcall.
  - cbn. destruct (decide (Z.of_nat (length l1) < tasks_counter s)); [done|].
    rewrite <- Hl, set_task_array_same. by rewrite set_calls_nil.
  - apply Forall_cons in Hcall as [Ht Hcall].
    cbn [length dispatch_loop pass].
    destruct (decide (Z.of_nat (length l1) < tasks_counter s)) as [Hlt|Hge].
    + assert (Hlk : task_array s !! length l1 = Some t)
        by (rewrite Hl; by apply list_lookup_middle).
      unfold mbind, M_bind.
      rewrite (dispatch_body_quiet exec _ _ _ exec_quiet Hlk).
      rewrite (dispatch_quiet_callable _ _ _ Hlk Ht).
      replace (Z.of_nat (length l1) + 1)
        with (Z.of_nat (length (l1 ++ [settle t])))
        by (rewrite length_app; cbn; lia).
      rewrite (IH (l1 ++ [settle t])); [|cbn|done].
      * cbn [tasks_counter set_calls poke set_task_array].
        destruct (pass (Z.of_nat (length (l1 ++ [settle t]))) (tasks_counter s) l2)
          as [[l2' evs]|]; [|done].
        unfold set_calls, set_task_array. cbn.
        by rewrite <- !app_assoc.
      * rewrite Hl, insert_middle. by rewrite <- app_assoc.
    + rewrite <- Hl, set_task_array_same. by rewrite set_calls_nil.
Qed.

Lemma dispatch_task_pass (MAX_TASKS : Z) (s : sched) :
  table_ok MAX_TASKS s ->
  Forall callable (task_array s) ->
  scheduler_dispatch_task MAX_TASKS exec s
  = match pass 0 (tasks_counter s) (task_array s) with
    | Some (l', evs) => Ok (tt, set_calls (calls s ++ evs) (set_task_array l' s))
    | None => Fault OutOfBounds
    end.
Proof.
  intros Hok Hcall. unfold scheduler_dispatch_task. rewrite <- Hok.
  exact (dispatch_loop_pass (task_array s) [] s eq_refl Hcall).
Qed.

End Pass.

Lemma pass_related (i c : Z) (l l' : list task_t) (evs : list event) :
  pass i c l = Some (l', evs) ->
  Forall2 (fun t t' => t' = t \/ t' = settle t) l l'.
Proof.
  revert i l' evs. induction l as [|t l IH]; intros i l' evs H.
  - cbn in H. case_decide; [discriminate|]. inversion H. constructor.
  - cbn [pass] in H. case_decide.
    + destruct (pass (i + 1) c l) as [[l'' evs']|] eqn:Hp; [|discriminate].
      inversion H; subst. constructor; [by right|]. by eapply IH.
    + inversion H; subst. apply Forall_Forall2_diag, Forall_true. by left.
Qed.

Lemma pass_in_table (i c : Z) (l : list task_t) :
  c <= i + Z.of_nat (length l) ->
  pass i c l
  = Some ((settle <$> take (Z.to_nat (c - i)) l) ++ drop (Z.to_nat (c - i)) l,
          pass_events i (take (Z.to_nat (c - i)) l)).
Proof.
  revert i. induction l as [|t l IH]; intros i Hc.
  - cbn in *. case_decide; [lia|]. by rewrite take_nil, drop_nil.
  - cbn [pass]. case_decide as Hlt.
    + rewrite IH by (cbn [length] in Hc; lia).
      replace (Z.to_nat (c - i)) with (S (Z.to_nat (c - (i + 1)))) by lia.
      reflexivity.
    + replace (Z.to_nat (c - i)) with 0%nat by lia. reflexivity.
Qed.

Lemma pass_off_table (i c : Z) (l : list task_t) :
  i + Z.of_nat (length l) < c -> pass i c l = None.
Proof.
  revert i. induction l as [|t l IH]; intros i Hc.
  - cbn in *. case_decide; [done|lia].
  - cbn [pass]. case_decide; [|cbn [length] in Hc; lia].
    by rewrite IH by (cbn [length] in Hc; lia).
Qed.

Lemma events_of_index (i : Z) (t : task_t) :
  Forall (fun e => ev_index e = i) (events_of i t).
Proof. unfold events_of. repeat case_decide; repeat constructor. Qed.

Lemma calls_at_all (i : Z) (evs : list event) :
  Forall (fun e => ev_index e = i) evs -> calls_at i evs = length evs.
Proof.
  intros Hall. unfold calls_at. induction Hall as [|e evs He _ IH]; [done|].
  rewrite filter_cons_True by done. cbn. by rewrite IH.
Qed.

Lemma pass_events_other (j i : Z) (l : list task_t) :
  j < i -> calls_at j (pass_events i l) = 0%nat.
Proof.
  revert i. induction l as [|t l IH]; intros i Hlt; [done|].
  cbn [pass_events]. rewrite calls_at_app, IH by lia.
  rewrite (calls_at_other i j) by (apply events_of_index || lia). done.
Qed.

Lemma calls_at_pass_events (i : Z) (l : list task_t) (n : nat) (t : task_t) :
  l !! n = Some t ->
  calls_at (i + Z.of_nat n) (pass_events i l)
  = length (events_of (i + Z.of_nat n) t).
Proof.
  revert i n. induction l as [|x l IH]; intros i n Hlk; [done|].
  cbn [pass_events]. rewrite calls_at_app. destruct n as [|n].
  - cbn in Hlk. inversion Hlk; subst. rewrite Z.add_0_r.
    rewrite pass_events_other by lia. rewrite Nat.add_0_r.
    by rewrite calls_at_all by apply events_of_index.
  - cbn in Hlk. rewrite (calls_at_other i) by (apply events_of_index || lia).
    replace (i + Z.of_nat (S n)) with ((i + 1) + Z.of_nat n) by lia.
    by rewrite (IH _ _ Hlk).
Qed.

(** ** Kinds, handle indices and uniqueness of the registered tasks *)

Lemma callable_of_invariants (t : task_t) : idle_ok t -> kind_ok t -> callable t.
Proof.
  intros Hidle Hkind. split.
  - intros Hst Hn. destruct (Hidle Hn) as [Hs _]. destruct Hst; congruence.
  - intros Hrd Hp.
    destruct (decide (NULL = ptask t)) as [Hn|Ha].
    + destruct (Hidle (eq_sym Hn)) as [Hs _]. congruence.
    + destruct (Hkind Ha) as [[_ Hs]|[Hne _]]; congruence.
Qed.

Lemma kind_ok_idle (t : task_t) : ptask t = NULL -> kind_ok t.
Proof. intros Hn Ha. congruence. Qed.

Lemma kind_ok_tick_task (t : task_t) : kind_ok t -> kind_ok (tick_task t).
Proof.
  intros Hk Ha. rewrite ptask_tick_task in Ha. specialize (Hk Ha).
  destruct (tick_task_status t) as (Hst & Hkeep & _ & _ & Hper & _).
  rewrite Hper. destruct Hk as [[Hp Hs]|[Hp Hs]].
  - left. split; [done|]. rewrite Hkeep; auto.
  - right. split; [done|]. destruct Hst as [Hst|Hst]; [rewrite Hst; done|by right].
Qed.

Lemma kind_ok_settle (t : task_t) : kind_ok t -> kind_ok (settle t).
Proof.
  unfold settle. case_decide as Hrd; [|done].
  intros Hk Ha. destruct (Hk Ha) as [[_ Hs]|[Hp _]]; [congruence|].
  right. split; [done|]. by left.
Qed.

Lemma kind_ok_new_task (c task : Z) (name : option string) (task_param d p : Z) :
  kind_ok (new_task c task name task_param d p).
Proof.
  intros _. unfold new_task. cbn. case_decide; [left|right]; split; auto.
Qed.

Lemma same_tasks_fmap (f : task_t -> task_t) (l : list task_t) :
  (forall t, ptask (f t) = ptask t /\
             index (task_handler (f t)) = index (task_handler t)) ->
  same_tasks l (f <$> l).
Proof.
  intros Hf. unfold same_tasks. apply Forall2_fmap_r.
  apply Forall_Forall2_diag, Forall_true. intros t. apply Hf.
Qed.

Lemma indexed_same (l l' : list task_t) :
  same_tasks l l' -> indexed l -> indexed l'.
Proof.
  intros Hsame Hidx n t' Hlk Ha.
  destruct (Forall2_lookup_r _ _ _ _ _ Hsame Hlk) as (t & Hlk0 & Hp & Hi).
  rewrite Hi. apply (Hidx n t Hlk0). congruence.
Qed.

Lemma unique_same (l l' : list task_t) :
  same_tasks l l' -> unique l -> unique l'.
Proof.
  intros Hsame Huniq i j ti' tj' Hi Hj Ha Heq.
  destruct (Forall2_lookup_r _ _ _ _ _ Hsame Hi) as (ti & Hi0 & Hpi & _).
  destruct (Forall2_lookup_r _ _ _ _ _ Hsame Hj) as (tj & Hj0 & Hpj & _).
  apply (Huniq i j ti tj Hi0 Hj0); congruence.
Qed.

Lemma indexed_idle (l : list task_t) :
  Forall (fun t => ptask t = NULL) l -> indexed l.
Proof.
  intros Hall n t Hlk Ha. pose proof (Forall_lookup_1 _ _ _ _ Hall Hlk). congruence.
Qed.

Lemma unique_idle (l : list task_t) :
  Forall (fun t => ptask t = NULL) l -> unique l.
Proof.
  intros Hall i j ti tj Hi _ Ha _.
  pose proof (Forall_lookup_1 _ _ _ _ Hall Hi). congruence.
Qed.

Lemma indexed_insert (l : list task_t) (n : nat) (t' : task_t) :
  indexed l ->
  (NULL ≠ ptask t' -> index (task_handler t') = Z.of_nat n) ->
  indexed (<[n := t']> l).
Proof.
  intros Hidx Hnew j t Hlk Ha.
  apply list_lookup_insert_Some in Hlk as [(-> & -> & _)|[Hne Hlk]]; [auto|].
  by apply (Hidx j t).
Qed.

Lemma unique_insert_idle (l : list task_t) (n : nat) (t' : task_t) :
  unique l -> ptask t' = NULL -> unique (<[n := t']> l).
Proof.
  intros Huniq Hn i j ti tj Hi Hj Ha Heq.
  apply list_lookup_insert_Some in Hi as [(-> & -> & _)|[Hni Hi]]; [congruence|].
  apply list_lookup_insert_Some in Hj as [(-> & -> & _)|[Hnj Hj]]; [congruence|].
  by apply (Huniq i j ti tj).
Qed.

Lemma unique_insert_new (l : list task_t) (n : nat) (t' : task_t) :
  unique l -> ¬ has_task (ptask t') l -> unique (<[n := t']> l).
Proof.
  intros Huniq Hnew i j ti tj Hi Hj Ha Heq.
  apply list_lookup_insert_Some in Hi as [(-> & -> & _)|[Hni Hi]];
    apply list_lookup_insert_Some in Hj as [(-> & -> & _)|[Hnj Hj]].
  - done.
  - exfalso. apply Hnew. apply has_task_lookup. eauto.
  - exfalso. apply Hnew. apply has_task_lookup. eauto.
  - by apply (Huniq i j ti tj).
Qed.

Lemma settle_same (t : task_t) :
  ptask (settle t) = ptask t /\
  index (task_handler (settle t)) = index (task_handler t).
Proof. unfold settle. by case_decide. Qed.

Section Soundness.

Variable MAX_TASKS : Z.
Variable exec : Z -> Z -> sched -> sched.
Hypothesis MAX_TASKS_range : 0 < MAX_TASKS < 2 ^ 31.
Hypothesis exec_quiet : quiet exec.

Lemma sound_boot : sound MAX_TASKS (boot MAX_TASKS).
Proof.
  assert (Hall : Forall (fun t => ptask t = NULL) (task_array (boot MAX_TASKS)))
    by (by apply Forall_replicate).
  split; [by apply consistent_boot|]. split_and!.
  - eapply Forall_impl; [exact Hall|]. apply kind_ok_idle.
  - by apply indexed_idle.
  - by apply unique_idle.
Qed.

Lemma sound_callable (s : sched) :
  sound MAX_TASKS s -> Forall callable (task_array s).
Proof.
  intros ((_ & _ & Hidle & _) & Hkind & _).
  apply Forall_lookup. intros n t Hlk. apply callable_of_invariants.
  - by apply (Forall_lookup_1 _ _ _ _ Hidle Hlk).
  - by apply (Forall_lookup_1 _ _ _ _ Hkind Hlk).
Qed.

Lemma sound_step (s s' : sched) :
  sound MAX_TASKS s -> step MAX_TASKS exec s s' -> sound MAX_TASKS s'.
Proof.
  intros Hsound Hstep.
  assert (Hcons' : consistent MAX_TASKS s').
  { destruct Hsound as [Hcons _]. by eapply step_consistent. }
  split; [done|]. clear Hcons'.
  pose proof (sound_callable s Hsound) as Hcall.
  destruct Hsound as (Hcons & Hkind & Hidx & Huniq).
  pose proof Hcons as (Hok & Hu & Hidle & Hact).
  destruct Hstep as [r H|task name task_param d p r H|i r H|r H|H].
  - rewrite scheduler_init_run in H by done. inversion H; subst. cbn.
    assert (Hall : Forall (fun t => ptask t = NULL) (wipe_task <$> task_array s))
      by (apply Forall_fmap, Forall_true; intros t; apply ptask_wipe_task).
    split_and!.
    + eapply Forall_impl; [exact Hall|]. apply kind_ok_idle.
    + by apply indexed_idle.
    + by apply unique_idle.
  - rewrite scheduler_add_task_run in H by done.
    repeat case_decide; inversion H; subst; cbn; try done.
    split_and!.
    + apply Forall_insert; [done|]. apply kind_ok_new_task.
    + apply indexed_insert; [done|]. intros _. cbn. lia.
    + by apply unique_insert_new.
  - destruct (delete_task_Ok _ _ _ _ H) as (n & t & -> & Hlk).
    rewrite (delete_task_lookup _ _ _ Hlk) in H. inversion H; subst.
    unfold delete_at. case_decide; [|done]. cbn. split_and!.
    + apply Forall_insert; [done|]. by apply kind_ok_idle.
    + apply indexed_insert; [done|]. intros Ha. by cbn in Ha.
    + by apply unique_insert_idle.
  - rewrite scheduler_update_run in H by done. inversion H; subst. cbn.
    assert (Hsame : same_tasks (task_array s) (tick_task <$> task_array s)).
    { apply same_tasks_fmap. intros t.
      destruct (tick_task_status t) as (_ & _ & Hp & _ & _ & Hh).
      split; [done|]. by rewrite Hh. }
    split_and!.
    + apply Forall_fmap. eapply Forall_impl; [exact Hkind|]. apply kind_ok_tick_task.
    + by eapply indexed_same.
    + by eapply unique_same.
  - rewrite (dispatch_task_pass exec exec_quiet MAX_TASKS) in H by done.
    destruct (pass 0 (tasks_counter s) (task_array s)) as [[l' evs]|] eqn:Hp;
      [|discriminate].
    inversion H; subst. cbn. pose proof (pass_related _ _ _ _ _ Hp) as Hrel.
    assert (Hsame : same_tasks (task_array s) l').
    { eapply Forall2_impl; [exact Hrel|]. intros t t' [-> | ->]; [done|].
      apply settle_same. }
    split_and!.
    + apply Forall_lookup. intros n t' Hlk.
      destruct (Forall2_lookup_r _ _ _ _ _ Hrel Hlk) as (t & Hlk0 & [Ht|Ht]);
        subst t'.
      * by apply (Forall_lookup_1 _ _ _ _ Hkind Hlk0).
      * apply kind_ok_settle. by apply (Forall_lookup_1 _ _ _ _ Hkind Hlk0).
    + by eapply indexed_same.
    + by eapply unique_same.
Qed.

Lemma reachable_sound (s : sched) :
  reachable MAX_TASKS exec s -> sound MAX_TASKS s.
Proof.
  induction 1 as [|s s' _ IH Hstep]; [apply sound_boot|by eapply sound_step].
Qed.

Lemma reachable_ticks (k : nat) (s sk : sched) :
  reachable MAX_TASKS exec s ->
  ticks MAX_TASKS k s = Ok (tt, sk) ->
  reachable MAX_TASKS exec sk.
Proof.
  revert sk. induction k as [|k IH]; intros sk Hreach Hrun.
  - cbn in Hrun. by inversion Hrun; subst.
  - cbn [ticks] in Hrun. unfold mbind, M_bind, mret, M_ret in Hrun.
    destruct (ticks MAX_TASKS k s) as [[[] s1]|] eqn:Hk; [|discriminate].
    destruct (scheduler_update MAX_TASKS s1) as [[r s2]|] eqn:Hu; [|discriminate].
    inversion Hrun; subst.
    eapply reachable_step; [by apply IH|]. by eapply step_tick.
Qed.

End Soundness.

Section ReachableFacts.

Variable MAX_TASKS : Z.
Variable exec : Z -> Z -> sched -> sched.
Hypothesis MAX_TASKS_range : 0 < MAX_TASKS < 2 ^ 31.
Hypothesis exec_quiet : quiet exec.

Lemma dispatch_sound_run (s : sched) :
  sound MAX_TASKS s ->
  tasks_counter s <= MAX_TASKS ->
  scheduler_dispatch_task MAX_TASKS exec s
  = Ok (tt, set_calls
              (calls s ++ pass_events 0 (take (Z.to_nat (tasks_counter s)) (task_array s)))
              (set_task_array
                 ((settle <$> take (Z.to_nat (tasks_counter s)) (task_array s))
                  ++ drop (Z.to_nat (tasks_counter s)) (task_array s)) s)).
Proof.
  intros Hsound Hle. pose proof Hsound as ((Hok & _) & _).
  rewrite (dispatch_task_pass exec exec_quiet MAX_TASKS)
    by (done || by apply (sound_callable MAX_TASKS)).
  rewrite pass_in_table by (rewrite Hok; lia).
  by rewrite Z.sub_0_r.
Qed.

End ReachableFacts.

(** X9.  In every state reached from the static initialisers through the public
    functions and the tick (callbacks leaving the scheduler alone), a slot is
    never [RUNNING] or [SUSPENDED]; a slot without callback is [STOPPED]; and
    a registered task is [RUN_ALWAYS] exactly when its period is 0.  So the
    status [READY] never meets period 0, and the branch of the dispatch pass
    that removes a task after its run is never taken. *)
Theorem reachable_task_kinds (MAX_TASKS : Z) (exec : Z -> Z -> sched -> sched)
    (s : sched) (n : nat) (t : task_t) :
  0 < MAX_TASKS < 2 ^ 31 ->
  quiet exec ->
  reachable MAX_TASKS exec s ->
  task_array s !! n = Some t ->
  (status t = STOPPED \/ status t = RUN_ALWAYS \/ status t = READY) /\
  (ptask t = NULL -> status t = STOPPED) /\
  (ptask t ≠ NULL -> (status t = RUN_ALWAYS <-> period t = 0)).
Proof.
  intros Hmax Hq Hreach Hlk.
  destruct (reachable_sound MAX_TASKS exec Hmax Hq s Hreach)
    as ((_ & _ & Hidle & _) & Hkind & _).
  pose proof (Forall_lookup_1 _ _ _ _ Hidle Hlk) as Hi.
  pose proof (Forall_lookup_1 _ _ _ _ Hkind Hlk) as Hk.
  destruct (decide (NULL = ptask t)) as [Hn|Ha].
  - destruct (Hi (eq_sym Hn)) as [Hs _]. split_and!; [by left|done|congruence].
  - destruct (Hk Ha) as [[Hp Hs]|[Hp Hs]].
    + split_and!; [by right; left|congruence|done].
    + split_and!; [destruct Hs; auto|congruence|].
      intros _. split; [destruct Hs; congruence|done].
Qed.

(** X10.  In every such state the handle of a registered task carries the index of
    the slot the task is in, which is what a callback would pass to
    [scheduler_delete_task] to remove itself. *)
Theorem handle_index_is_slot (MAX_TASKS : Z) (exec : Z -> Z -> sched -> sched)
    (s : sched) (n : nat) (t : task_t) :
  0 < MAX_TASKS < 2 ^ 31 ->
  quiet exec ->
  reachable MAX_TASKS exec s ->
  task_array s !! n = Some t ->
  ptask t ≠ NULL ->
  index (task_handler t) = Z.of_nat n.
Proof.
  intros Hmax Hq Hreach Hlk Ha.
  destruct (reachable_sound MAX_TASKS exec Hmax Hq s Hreach) as (_ & _ & Hidx & _).
  apply (Hidx n t Hlk). congruence.
Qed.

(** X11.  In every such state no callback is registered in two slots. *)
Theorem callbacks_unique (MAX_TASKS : Z) (exec : Z -> Z -> sched -> sched)
    (s : sched) (i j : nat) (ti tj : task_t) :
  0 < MAX_TASKS < 2 ^ 31 ->
  quiet exec ->
  reachable MAX_TASKS exec s ->
  task_array s !! i = Some ti ->
  task_array s !! j = Some tj ->
  ptask ti ≠ NULL ->
  ptask ti = ptask tj ->
  i = j.
Proof.
  intros Hmax Hq Hreach Hi Hj Ha Heq.
  destruct (reachable_sound MAX_TASKS exec Hmax Hq s Hreach) as (_ & _ & _ & Hu).
  apply (Hu i j ti tj Hi Hj); congruence.
Qed.

(** X12.  In every such state a registration with a null callback is refused with
    [SCH_ERROR] and leaves counter and table alone: either the table is full,
    or the duplicate scan meets an empty slot, whose callback is null too. *)
Theorem null_callback_rejected (MAX_TASKS : Z) (exec : Z -> Z -> sched -> sched)
    (s : sched) (name : option string) (task_param d p : Z) :
  0 < MAX_TASKS < 2 ^ 31 ->
  quiet exec ->
  reachable MAX_TASKS exec s ->
  exists s',
    scheduler_add_task MAX_TASKS NULL name task_param d p s = Ok (SCH_ERROR, s') /\
    tasks_counter s' = tasks_counter s /\
    task_array s' = task_array s.
Proof.
  intros Hmax Hq Hreach.
  pose proof (reachable_consistent MAX_TASKS exec s Hmax Hq Hreach) as Hcons.
  pose proof Hcons as (Hok & _).
  rewrite scheduler_add_task_run by done.
  destruct (decide (tasks_counter s < MAX_TASKS)) as [Hlt|Hge]; [|by eexists].
  destruct (decide (has_task NULL (task_array s))) as [Hdup|Hnew]; [by eexists|].
  exfalso. by apply (add_task_not_null MAX_TASKS Hmax s NULL Hcons Hlt Hnew).
Qed.

(** X13.  A dispatch pass over such a state whose counter is within the table
    returns.  It visits the slots below the task counter in index order, logs
    one call for each that is [RUN_ALWAYS] or [READY] (the latter seen as
    [RUNNING] by its callback) and none for the others, turns the [READY]
    ones to [STOPPED], and changes nothing else: the slots from the counter
    on, the counter and the flags are as before, and no task is removed. *)
Theorem dispatch_pass_in_order (MAX_TASKS : Z) (exec : Z -> Z -> sched -> sched)
    (s : sched) :
  0 < MAX_TASKS < 2 ^ 31 ->
  quiet exec ->
  reachable MAX_TASKS exec s ->
  tasks_counter s <= MAX_TASKS ->
  exists s',
    scheduler_dispatch_task MAX_TASKS exec s = Ok (tt, s') /\
    task_array s'
    = (settle <$> take (Z.to_nat (tasks_counter s)) (task_array s))
      ++ drop (Z.to_nat (tasks_counter s)) (task_array s) /\
    calls s'
    = calls s ++ pass_events 0 (take (Z.to_nat (tasks_counter s)) (task_array s)) /\
    tasks_counter s' = tasks_counter s /\
    scheduler_status s' = scheduler_status s.
Proof.
  intros Hmax Hq Hreach Hle.
  pose proof (reachable_sound MAX_TASKS exec Hmax Hq s Hreach) as Hsound.
  eexists. split; [by apply dispatch_sound_run|]. done.
Qed.

(** X14.  [scheduler_init] is not a reset.  Called on a reachable state that holds
    [k >= 1] tasks it empties the table but leaves the task counter at
    [2^32 - k]; the next dispatch pass then scans past the last slot and reads
    outside [task_array]. *)
Theorem dispatch_after_reinit_out_of_bounds (MAX_TASKS : Z)
    (exec : Z -> Z -> sched -> sched) (s : sched) :
  0 < MAX_TASKS < 2 ^ 31 ->
  quiet exec ->
  reachable MAX_TASKS exec s ->
  0 < active_slots (task_array s) ->
  exists s',
    scheduler_init MAX_TASKS s = Ok (SCH_STATUS_OK, s') /\
    tasks_counter s' = 2 ^ 32 - active_slots (task_array s) /\
    scheduler_dispatch_task MAX_TASKS exec s' = Fault OutOfBounds.
Proof.
  intros Hmax Hq Hreach Hpos.
  pose proof (reachable_consistent MAX_TASKS exec s Hmax Hq Hreach) as (Hok & _).
  pose proof (active_slots_le_length (task_array s)) as Hle.
  unfold table_ok in Hok. rewrite Hok in Hle.
  assert (Hctr : u32 (0 - active_slots (task_array s))
                 = 2 ^ 32 - active_slots (task_array s)).
  { unfold u32.
    replace (0 - active_slots (task_array s))
      with ((2 ^ 32 - active_slots (task_array s)) + (-1) * 2 ^ 32) by lia.
    rewrite Z.mod_add by lia. apply Z.mod_small. lia. }
  pose proof (scheduler_init_run MAX_TASKS s Hok) as Hinit.
  eexists. split; [exact Hinit|]. split; [exact Hctr|].
  assert (Hreach' : reachable MAX_TASKS exec
            (mk_sched (u32 (0 - active_slots (task_array s))) 0
                      (wipe_task <$> task_array s) (calls s))).
  { eapply reachable_step; [exact Hreach|]. by eapply step_init. }
  pose proof (reachable_sound MAX_TASKS exec Hmax Hq _ Hreach') as Hsound.
  rewrite (dispatch_task_pass exec Hq MAX_TASKS)
    by (apply Hsound || by apply (sound_callable MAX_TASKS)).
  rewrite pass_off_table; [done|].
  cbn. rewrite length_fmap, Hok, Hctr. lia.
Qed.

(** X15.  From registration to the first run.  A periodic task (period [p > 0])
    registered in a reachable state with delay [d] is [READY] after [d + 1]
    ticks; the dispatch pass that follows returns, calls it exactly once and
    leaves it [STOPPED] with the delay reloaded to [p]. *)
Theorem registered_task_first_run (MAX_TASKS : Z) (exec : Z -> Z -> sched -> sched)
    (s s1 : sched) (task : Z) (name : option string) (task_param d p : Z) :
  0 < MAX_TASKS < 2 ^ 31 ->
  quiet exec ->
  reachable MAX_TASKS exec s ->
  is_u32 d -> 0 < p ->
  scheduler_add_task MAX_TASKS task name task_param d p s = Ok (SCH_STATUS_OK, s1) ->
  exists s2 s3,
    ticks MAX_TASKS (S (Z.to_nat d)) s1 = Ok (tt, s2) /\
    task_array s2 !! Z.to_nat (tasks_counter s)
    = Some (mk_task task name p p READY (mk_handler (tasks_counter s) task_param)) /\
    scheduler_dispatch_task MAX_TASKS exec s2 = Ok (tt, s3) /\
    calls_at (tasks_counter s) (calls s3)
    = S (calls_at (tasks_counter s) (calls s2)) /\
    task_array s3 !! Z.to_nat (tasks_counter s)
    = Some (mk_task task name p p STOPPED (mk_handler (tasks_counter s) task_param)).
Proof.
  intros Hmax Hq Hreach Hd Hp Hadd.
  pose proof (reachable_consistent MAX_TASKS exec s Hmax Hq Hreach) as Hcons.
  pose proof Hcons as (Hok & Hu & _).
  destruct (add_task_success _ _ _ _ _ _ _ _ Hok Hadd) as (Hc & Hnew & Hs1).
  assert (Hnn : task ≠ NULL).
  { intros ->. by apply (add_task_not_null MAX_TASKS Hmax s NULL Hcons (proj2 Hc) Hnew). }
  destruct (registered_slot_after_ticks _ _ _ _ _ _ _ _ (S (Z.to_nat d)) Hok Hadd)
    as (s2 & Hticks & Hlk2).
  rewrite countdown_due in Hlk2 by done.
  assert (Hreach1 : reachable MAX_TASKS exec s1).
  { eapply reachable_step; [exact Hreach|]. by eapply step_add. }
  pose proof (reachable_ticks MAX_TASKS exec _ _ _ Hreach1 Hticks) as Hreach2.
  pose proof (reachable_sound MAX_TASKS exec Hmax Hq _ Hreach2) as Hsound2.
  assert (Hc2 : tasks_counter s2 = tasks_counter s + 1).
  { rewrite ticks_run in Hticks
      by (subst s1; unfold table_ok; cbn; by rewrite length_insert).
    inversion Hticks; subst. cbn. apply u32_id. unfold is_u32 in *.
    lia. }
  set (n := Z.to_nat (tasks_counter s)) in *.
  assert (Hn : (n < Z.to_nat (tasks_counter s2))%nat) by lia.
  assert (Htake : take (Z.to_nat (tasks_counter s2)) (task_array s2) !! n
                  = Some (mk_task task name p p READY
                            (mk_handler (tasks_counter s) task_param)))
    by (by rewrite lookup_take_lt).
  exists s2. eexists. split; [exact Hticks|]. split; [exact Hlk2|].
  split; [apply (dispatch_sound_run MAX_TASKS exec Hmax Hq); [done|lia]|].
  cbn [calls set_calls task_array set_task_array]. split.
  - assert (Hone : calls_at (tasks_counter s)
                     (pass_events 0 (take (Z.to_nat (tasks_counter s2)) (task_array s2)))
                   = 1%nat).
    { replace (tasks_counter s) with (0 + Z.of_nat n) by lia.
      rewrite (calls_at_pass_events _ _ _ _ Htake). reflexivity. }
    rewrite calls_at_app, Hone. lia.
  - rewrite lookup_app_l by (rewrite length_fmap; by eapply lookup_lt_Some).
    by rewrite list_lookup_fmap, Htake.
Qed.

(** ** [scheduler_start] *)

Lemma report_loop_run (l2 l1 : list task_t) (s : sched) :
  task_array s = l1 ++ l2 ->
  tasks_counter s <= Z.of_nat (length l1) + Z.of_nat (length l2) ->
  report_loop (length l2) (Z.of_nat (length l1)) s = Ok (tt, s).
Proof.
  revert l1. induction l2 as [|t l2 IH]; intros l1 Hl Hc.
  - cbn in *. case_decide; [lia|done].
  - cbn [length report_loop]. case_decide; [|done].
    unfold mbind, M_bind.
    rewrite (read_task_lookup s (length l1) t)
      by (rewrite Hl; by apply list_lookup_middle).
    replace (Z.of_nat (length l1) + 1) with (Z.of_nat (length (l1 ++ [t])))
      by (rewrite length_app; cbn; lia).
    apply IH; [by rewrite <- app_assoc|].
    rewrite length_app. cbn [length] in *. lia.
Qed.

Lemma scheduler_report_status_run (MAX_TASKS : Z) (s : sched) :
  table_ok MAX_TASKS s ->
  tasks_counter s <= MAX_TASKS ->
  0 <= MAX_TASKS ->
  scheduler_report_status MAX_TASKS s = Ok (tt, s).
Proof.
  intros Hok Hc Hm. unfold scheduler_report_status. rewrite <- Hok.
  apply (report_loop_run (task_array s) [] s eq_refl).
  cbn [length]. rewrite Hok. lia.
Qed.

(** X16.  A registration that succeeds on a scheduler whose flags are clear, or
    hold nothing but the flag of an earlier refused duplicate, leaves it ready
    to start: [scheduler_start] returns [SCH_STATUS_OK] and changes
    nothing. *)
Theorem scheduler_start_after_registration (MAX_TASKS : Z) (s s1 : sched)
    (task : Z) (name : option string) (task_param d p : Z) :
  0 < MAX_TASKS < 2 ^ 31 ->
  table_ok MAX_TASKS s ->
  scheduler_status s = 0 \/
  scheduler_status s = BIT_SET 0 SCH_TASK_CREATE_FLAG ->
  scheduler_add_task MAX_TASKS task name task_param d p s = Ok (SCH_STATUS_OK, s1) ->
  scheduler_start MAX_TASKS s1 = Returned SCH_STATUS_OK s1.
Proof.
  intros Hmax Hok Hflags Hadd.
  destruct (add_task_success _ _ _ _ _ _ _ _ Hok Hadd) as (Hc & _ & ->).
  assert (Hf : BIT_CLEAR (scheduler_status s) SCH_TASK_CREATE_FLAG = 0)
    by (destruct Hflags as [-> | ->]; reflexivity).
  rewrite Hf. rewrite u32_id by (unfold is_u32; lia).
  set (s1 := set_flags 0 _).
  assert (Hcond : start_condition MAX_TASKS s1).
  { unfold start_condition. cbn. split_and!; try reflexivity; lia. }
  unfold scheduler_start.
  destruct (decide (start_condition MAX_TASKS s1)) as [_|Hn]; [|done].
  assert (Hsame : set_flags (BIT_CLEAR (scheduler_status s1) SCH_RUN_FLAG) s1 = s1)
    by reflexivity.
  rewrite Hsame.
  rewrite scheduler_report_status_run.
  - destruct (decide (SCH_STATUS_OK ≠ SCH_STATUS_OK)); done.
  - unfold table_ok. cbn. by rewrite length_insert.
  - cbn. lia.
  - lia.
Qed.

Lemma status_flag_BIT_SET (f b : Z) :
  Z.testbit f SCH_STATUS_FLAG = true ->
  Z.testbit (BIT_SET f b) SCH_STATUS_FLAG = true.
Proof.
  intros H. unfold BIT_SET, u8, SCH_STATUS_FLAG in *.
  rewrite Z.mod_pow2_bits_low by lia. by rewrite Z.lor_spec, H.
Qed.

Lemma status_flag_BIT_SET_status (f : Z) :
  Z.testbit (BIT_SET f SCH_STATUS_FLAG) SCH_STATUS_FLAG = true.
Proof.
  unfold BIT_SET, u8, SCH_STATUS_FLAG.
  rewrite Z.mod_pow2_bits_low by lia. rewrite Z.lor_spec.
  change (Z.testbit (Z.shiftl 1 0) 0) with true. apply orb_true_r.
Qed.

Lemma status_flag_BIT_CLEAR_create (f : Z) :
  Z.testbit f SCH_STATUS_FLAG = true ->
  Z.testbit (BIT_CLEAR f SCH_TASK_CREATE_FLAG) SCH_STATUS_FLAG = true.
Proof.
  intros H. unfold BIT_CLEAR, u8, SCH_STATUS_FLAG, SCH_TASK_CREATE_FLAG in *.
  rewrite Z.mod_pow2_bits_low by lia. rewrite Z.land_spec, H.
  rewrite Z.lnot_spec by lia. reflexivity.
Qed.

Lemma status_flag_BIT_GET (f : Z) :
  Z.testbit f SCH_STATUS_FLAG = true ->
  SCH_STATUS_OK ≠ BIT_GET f SCH_STATUS_FLAG.
Proof.
  intros H Heq. unfold BIT_GET, SCH_STATUS_FLAG, SCH_STATUS_OK in *.
  rewrite Z.shiftr_0_r in Heq.
  assert (Hbit : Z.testbit (Z.land f 1) 0 = true)
    by (rewrite Z.land_spec, H; reflexivity).
  rewrite <- Heq in Hbit. discriminate Hbit.
Qed.

Lemma preserves_ret {A : Type} (P : sched -> Prop) (a : A) : preserves P (mret a).
Proof. intros s a' s' H. by inversion H; subst. Qed.

Lemma preserves_bind {A B : Type} (P : sched -> Prop) (m : M A) (k : A -> M B) :
  preserves P m -> (forall a, preserves P (k a)) -> preserves P (m ≫= k).
Proof.
  intros Hm Hk s b s' H HP. unfold mbind, M_bind in H.
  destruct (m s) as [[a s1]|f] eqn:Hms; [|discriminate].
  eapply Hk; [exact H|]. by eapply Hm.
Qed.

Lemma preserves_same_flags {A : Type} (m : M A) :
  (forall s a s', m s = Ok (a, s') -> scheduler_status s' = scheduler_status s) ->
  preserves status_flag_set m.
Proof.
  intros Hm s a s' H HP. unfold status_flag_set. by rewrite (Hm _ _ _ H).
Qed.

Lemma preserves_read_task (i : Z) : preserves status_flag_set (read_task i).
Proof.
  apply preserves_same_flags. intros s a s'. unfold read_task.
  destruct (slot (task_array s) i); [|discriminate]. by inversion 1.
Qed.

Lemma preserves_modify_task (i : Z) (f : task_t -> task_t) :
  preserves status_flag_set (modify_task i f).
Proof.
  apply preserves_same_flags. intros s a s'. unfold modify_task.
  destruct (slot (task_array s) i); [|discriminate]. by inversion 1.
Qed.

Lemma preserves_modify_counter (f : Z -> Z) :
  preserves status_flag_set (modify_counter f).
Proof. apply preserves_same_flags. intros s a s'. by inversion 1. Qed.

Lemma preserves_modify_flags (f : Z -> Z) :
  (forall x, Z.testbit x SCH_STATUS_FLAG = true ->
             Z.testbit (f x) SCH_STATUS_FLAG = true) ->
  preserves status_flag_set (modify_flags f).
Proof.
  intros Hf s a s' H HP. inversion H; subst. unfold status_flag_set. cbn.
  by apply Hf.
Qed.

Lemma preserves_delete_task (i : Z) :
  preserves status_flag_set (scheduler_delete_task i).
Proof.
  unfold scheduler_delete_task.
  apply preserves_bind; [apply preserves_read_task|]. intros t.
  apply preserves_bind; [|intros; apply preserves_ret].
  case_decide; [|apply preserves_ret].
  repeat (apply preserves_bind; [apply preserves_modify_task|intros _]).
  apply preserves_modify_counter.
Qed.

Lemma preserves_update (MAX_TASKS : Z) :
  preserves status_flag_set (scheduler_update MAX_TASKS).
Proof.
  unfold scheduler_update.
  apply preserves_bind; [|intros; apply preserves_ret].
  generalize 0. induction (Z.to_nat MAX_TASKS) as [|n IH]; intros i.
  - apply preserves_ret.
  - cbn [update_loop]. apply preserves_bind; [|intros _; apply IH].
    unfold update_body.
    apply preserves_bind; [apply preserves_read_task|]. intros t.
    case_decide; [|apply preserves_ret].
    case_decide; [|apply preserves_modify_task].
    apply preserves_bind.
    { case_decide; [apply preserves_modify_task|apply preserves_ret]. }
    intros _. apply preserves_bind; [apply preserves_read_task|]. intros t1.
    case_decide; [apply preserves_modify_task|apply preserves_ret].
Qed.

Lemma preserves_add_task (MAX_TASKS : Z) (task : Z) (name : option string)
    (task_param d p : Z) :
  preserves status_flag_set
    (scheduler_add_task MAX_TASKS task name task_param d p).
Proof.
  unfold scheduler_add_task.
  apply preserves_bind; [by intros s a s'; inversion 1; subst|]. intros s0.
  case_decide.
  - apply preserves_bind.
    { generalize 0. induction (Z.to_nat MAX_TASKS) as [|n IH]; intros i.
      - apply preserves_ret.
      - cbn [dup_scan]. apply preserves_bind; [apply preserves_read_task|].
        intros t. case_decide; [|apply IH].
        apply preserves_bind; [|intros; apply preserves_ret].
        apply preserves_modify_flags. intros x. apply status_flag_BIT_SET. }
    intros r. case_decide; [|apply preserves_ret].
    apply preserves_bind; [by intros s a s'; inversion 1; subst|]. intros s1.
    repeat (apply preserves_bind; [apply preserves_modify_task|intros _]).
    apply preserves_bind; [apply preserves_modify_counter|intros _].
    apply preserves_bind; [|intros; apply preserves_ret].
    apply preserves_modify_flags. intros x. apply status_flag_BIT_CLEAR_create.
  - apply preserves_bind.
    { apply preserves_modify_flags. intros x. apply status_flag_BIT_SET. }
    intros _. apply preserves_bind; [|intros; apply preserves_ret].
    apply preserves_modify_flags. intros x. apply status_flag_BIT_SET.
Qed.

Section StartAfterOverflow.

Variable MAX_TASKS : Z.
Variable exec : Z -> Z -> sched -> sched.
Hypothesis exec_quiet : quiet exec.

Lemma preserves_call_task (i : Z) : preserves status_flag_set (call_task exec i).
Proof.
  unfold call_task.
  apply preserves_bind; [apply preserves_read_task|]. intros t.
  case_decide; [by intros s a s'|].
  apply preserves_same_flags. intros s a s' Hrun. inversion Hrun; subst.
  cbn. by rewrite exec_quiet.
Qed.

Lemma preserves_dispatch :
  preserves status_flag_set (scheduler_dispatch_task MAX_TASKS exec).
Proof.
  unfold scheduler_dispatch_task. generalize 0.
  induction (Z.to_nat MAX_TASKS) as [|n IH]; intros i s a s' H.
  - cbn in H. case_decide; [discriminate|]. by inversion H; subst.
  - cbn [dispatch_loop] in H. case_decide; [|by inversion H; subst].
    revert H. apply preserves_bind; [|intros _; apply IH].
    unfold dispatch_body.
    apply preserves_bind; [apply preserves_read_task|]. intros t.
    apply preserves_bind.
    { case_decide; [apply preserves_call_task|apply preserves_ret]. }
    intros _. apply preserves_bind; [apply preserves_read_task|]. intros t1.
    case_decide; [|apply preserves_ret].
    apply preserves_bind; [apply preserves_modify_task|]. intros _.
    apply preserves_bind; [apply preserves_call_task|]. intros _.
    apply preserves_bind; [apply preserves_read_task|]. intros t2.
    apply preserves_bind.
    { case_decide; [apply preserves_modify_task|apply preserves_ret]. }
    intros _. apply preserves_bind; [apply preserves_read_task|]. intros t3.
    case_decide; [|apply preserves_ret].
    apply preserves_bind; [apply preserves_delete_task|]. intros _.
    apply preserves_ret.
Qed.

Lemma runs_status_flag (s s' : sched) :
  runs MAX_TASKS exec s s' -> status_flag_set s -> status_flag_set s'.
Proof.
  induction 1 as [s|s s1 s2 task name task_param d p r H _ IH
                  |s s1 s2 i r H _ IH|s s1 s2 r H _ IH|s s1 s2 H _ IH];
    intros Hset; [done|apply IH..].
  - by eapply preserves_add_task.
  - by eapply preserves_delete_task.
  - by eapply preserves_update.
  - by eapply preserves_dispatch.
Qed.

End StartAfterOverflow.

(** X17.  A registration refused because the table is full sets the status flag,
    and nothing but [scheduler_init] clears it: whatever registrations,
    removals, ticks and dispatch passes follow, [scheduler_start] does not
    return (it spins after its report, or the report itself leaves the
    table). *)
Theorem scheduler_start_halts_after_table_full (MAX_TASKS : Z)
    (exec : Z -> Z -> sched -> sched) (s s1 s2 : sched) (task : Z)
    (name : option string) (task_param d p r : Z) :
  quiet exec ->
  MAX_TASKS <= tasks_counter s ->
  scheduler_add_task MAX_TASKS task name task_param d p s = Ok (r, s1) ->
  runs MAX_TASKS exec s1 s2 ->
  r = SCH_ERROR /\
  forall r' s3, scheduler_start MAX_TASKS s2 ≠ Returned r' s3.
Proof.
  intros Hq Hfull Hadd Hruns.
  unfold scheduler_add_task in Hadd. unfold mbind, M_bind, get in Hadd.
  destruct (decide (tasks_counter s < MAX_TASKS)) as [Hlt|_]; [lia|].
  inversion Hadd; subst. clear Hadd. split; [done|].
  assert (Hset : status_flag_set s2).
  { eapply runs_status_flag; [exact Hq|exact Hruns|].
    unfold status_flag_set. cbn. apply status_flag_BIT_SET_status. }
  intros r' s3. unfold scheduler_start.
  destruct (decide (start_condition MAX_TASKS s2)) as [Hcond|_].
  - exfalso. destruct Hcond as [H0 _].
    by apply (status_flag_BIT_GET _ Hset).
  - destruct (scheduler_report_status MAX_TASKS s2) as [[[] s4]|f]; [|done].
    destruct (decide (SCH_STATUS_OK ≠ SCH_ERROR)) as [_|Hn]; [done|].
    exfalso. apply Hn. discriminate.
Qed.

(** ** Removal in reverse order of registration *)

Section Lifo.

Variable MAX_TASKS : Z.
Variable exec : Z -> Z -> sched -> sched.
Hypothesis MAX_TASKS_range : 0 < MAX_TASKS < 2 ^ 31.
Hypothesis exec_quiet : quiet exec.

Lemma reachable_lifo_reachable (s : sched) :
  reachable_lifo MAX_TASKS exec s -> reachable MAX_TASKS exec s.
Proof.
  induction 1 as [|s s' task name task_param d p r _ IH H|s s' r _ IH H
                  |s s' r _ IH H|s s' _ IH H].
  - apply reachable_boot.
  - eapply reachable_step; [exact IH|]. by eapply step_add.
  - eapply reachable_step; [exact IH|]. by eapply step_delete.
  - eapply reachable_step; [exact IH|]. by eapply step_tick.
  - eapply reachable_step; [exact IH|]. by eapply step_dispatch.
Qed.

Lemma packed_same (s s' : sched) :
  tasks_counter s' = tasks_counter s ->
  Forall2 (fun t t' => ptask t' = ptask t) (task_array s) (task_array s') ->
  packed s -> packed s'.
Proof.
  intros Hc Hsame Hp n t' Hlk.
  destruct (Forall2_lookup_r _ _ _ _ _ Hsame Hlk) as (t & Hlk0 & Heq).
  rewrite Hc, Heq. by apply Hp.
Qed.

Lemma reachable_lifo_packed (s : sched) :
  reachable_lifo MAX_TASKS exec s ->
  tasks_counter s <= MAX_TASKS /\ packed s.
Proof.
  intros Hlifo.
  induction Hlifo as [|s s' task name task_param d p r Hl IH H|s s' r Hl IH H
                      |s s' r Hl IH H|s s' Hl IH H].
  - split; [cbn; lia|]. intros n t Hlk. cbn in *.
    apply lookup_replicate in Hlk as [-> _]. cbn. split; [done|lia].
  - destruct IH as [Hle Hp].
    pose proof (reachable_sound MAX_TASKS exec MAX_TASKS_range exec_quiet s
                  (reachable_lifo_reachable s Hl)) as (Hcons & _).
    pose proof Hcons as (Hok & Hu & _).
    rewrite scheduler_add_task_run in H by done.
    destruct (decide (tasks_counter s < MAX_TASKS)) as [Hlt|Hge];
      [|by inversion H; subst].
    destruct (decide (has_task task (task_array s))) as [Hdup|Hnew];
      [by inversion H; subst|].
    destruct (decide (0 <= tasks_counter s)); [|discriminate].
    inversion H; subst. clear H.
    pose proof (add_task_not_null MAX_TASKS MAX_TASKS_range s task Hcons Hlt Hnew)
      as Hnn.
    cbn. rewrite u32_id by (unfold is_u32; lia). split; [lia|].
    intros n t Hlk. cbn in Hlk.
    cbn [tasks_counter set_flags set_counter poke set_task_array].
    apply list_lookup_insert_Some in Hlk as [(<- & <- & _)|[Hne Hlk]].
    + cbn. split; [lia|]. intros _. congruence.
    + rewrite (Hp n t Hlk). split; lia.
  - destruct IH as [Hle Hp].
    destruct (delete_task_Ok _ _ _ _ H) as (n & t & Hi & Hlk).
    rewrite Hi in H. rewrite (delete_task_lookup _ _ _ Hlk) in H.
    inversion H; subst. clear H. unfold delete_at.
    destruct (decide (NULL ≠ ptask t)) as [Ha|Hidle].
    + cbn. rewrite u32_id by (unfold is_u32; lia). split; [lia|].
      intros j tj Hj. cbn in Hj.
      cbn [tasks_counter set_flags set_counter poke set_task_array].
      apply list_lookup_insert_Some in Hj as [(<- & <- & _)|[Hne Hj]].
      * cbn. split; [done|lia].
      * rewrite (Hp j tj Hj). split; lia.
    + exfalso. apply Hidle. intros Heq.
      apply (proj2 (Hp n t Hlk)); [lia|done].
  - destruct IH as [Hle Hp].
    pose proof (reachable_sound MAX_TASKS exec MAX_TASKS_range exec_quiet s
                  (reachable_lifo_reachable s Hl)) as ((Hok & _) & _).
    rewrite scheduler_update_run in H by done. inversion H; subst.
    split; [done|]. apply (packed_same s); [done| |done].
    cbn. apply Forall2_fmap_r, Forall_Forall2_diag, Forall_true.
    intros t. apply ptask_tick_task.
  - destruct IH as [Hle Hp].
    pose proof (reachable_sound MAX_TASKS exec MAX_TASKS_range exec_quiet s
                  (reachable_lifo_reachable s Hl)) as Hsound.
    pose proof Hsound as ((Hok & _) & _).
    rewrite (dispatch_task_pass exec exec_quiet MAX_TASKS) in H
      by (done || by apply (sound_callable MAX_TASKS)).
    destruct (pass 0 (tasks_counter s) (task_array s)) as [[l' evs]|] eqn:Hpass;
      [|discriminate].
    inversion H; subst. split; [done|].
    apply (packed_same s); [done| |done].
    cbn. eapply Forall2_impl; [exact (pass_related _ _ _ _ _ Hpass)|].
    intros t t' [-> | ->]; [done|]. apply settle_same.
Qed.

End Lifo.

(** X18.  As long as the only task ever removed is the one registered last (the
    slot just below the task counter), the registered tasks are exactly the
    slots below the counter and the counter stays within the table: the
    dispatch scan covers every registered task, and a registration never
    overwrites one. *)
Theorem packed_when_removing_last (MAX_TASKS : Z) (exec : Z -> Z -> sched -> sched)
    (s : sched) (n : nat) (t : task_t) :
  0 < MAX_TASKS < 2 ^ 31 ->
  quiet exec ->
  reachable_lifo MAX_TASKS exec s ->
  task_array s !! n = Some t ->
  0 <= tasks_counter s <= MAX_TASKS /\
  (ptask t ≠ NULL <-> Z.of_nat n < tasks_counter s).
Proof.
  intros Hmax Hq Hlifo Hlk.
  destruct (reachable_lifo_packed MAX_TASKS exec Hmax Hq s Hlifo) as [Hle Hp].
  pose proof (reachable_consistent MAX_TASKS exec s Hmax Hq
                (reachable_lifo_reachable MAX_TASKS exec s Hlifo)) as (_ & Hu & _).
  split; [unfold is_u32 in Hu; lia|]. by apply Hp.
Qed.

(** ** Two passes in a row *)

Lemma settle_settle (t : task_t) : settle (settle t) = settle t.
Proof.
  unfold settle. destruct (decide (status t = READY)) as [H|H]; cbn.
  - by destruct (decide (STOPPED = READY)).
  - by destruct (decide (status t = READY)).
Qed.

Lemma status_settle (t : task_t) : status (settle t) ≠ READY.
Proof. unfold settle. by case_decide. Qed.

Lemma pass_events_no_ready (i : Z) (l : list task_t) :
  Forall (fun t => status t ≠ READY) l ->
  Forall (fun e => status (ev_slot e) = RUN_ALWAYS) (pass_events i l).
Proof.
  intros Hall. revert i. induction Hall as [|t l Ht _ IH]; intros i; [constructor|].
  cbn [pass_events]. apply Forall_app. split; [|apply IH].
  unfold events_of. repeat case_decide; repeat constructor; done.
Qed.

(** X19.  A [READY] task is run by one pass only.  Of two dispatch passes in a row
    the second leaves the table as the first left it, and the calls it logs
    are all to [RUN_ALWAYS] tasks. *)
Theorem dispatch_twice (MAX_TASKS : Z) (exec : Z -> Z -> sched -> sched)
    (s s1 : sched) :
  0 < MAX_TASKS < 2 ^ 31 ->
  quiet exec ->
  reachable MAX_TASKS exec s ->
  tasks_counter s <= MAX_TASKS ->
  scheduler_dispatch_task MAX_TASKS exec s = Ok (tt, s1) ->
  exists s2 evs,
    scheduler_dispatch_task MAX_TASKS exec s1 = Ok (tt, s2) /\
    task_array s2 = task_array s1 /\
    tasks_counter s2 = tasks_counter s1 /\
    calls s2 = calls s1 ++ evs /\
    Forall (fun e => status (ev_slot e) = RUN_ALWAYS) evs.
Proof.
  intros Hmax Hq Hreach Hle Hrun.
  pose proof (reachable_sound MAX_TASKS exec Hmax Hq s Hreach) as Hsound.
  pose proof Hsound as ((Hok & Hu & _) & _).
  assert (Hreach1 : reachable MAX_TASKS exec s1)
    by (eapply reachable_step; [exact Hreach|by apply step_dispatch]).
  pose proof (reachable_sound MAX_TASKS exec Hmax Hq s1 Hreach1) as Hsound1.
  rewrite (dispatch_sound_run MAX_TASKS exec Hmax Hq s Hsound Hle) in Hrun.
  injection Hrun as Hs1.
  set (c := Z.to_nat (tasks_counter s)) in *.
  assert (Hc1 : tasks_counter s1 = tasks_counter s) by (by subst s1).
  assert (Hlen : length (settle <$> take c (task_array s)) = c).
  { rewrite length_fmap, length_take. unfold table_ok in Hok. unfold is_u32 in Hu. lia. }
  assert (Htake : take c (task_array s1) = settle <$> take c (task_array s)).
  { subst s1. cbn. rewrite take_app_length'; done. }
  assert (Hdrop : drop c (task_array s1) = drop c (task_array s)).
  { subst s1. cbn. rewrite drop_app_length'; done. }
  eexists _, _. split.
  { apply (dispatch_sound_run MAX_TASKS exec Hmax Hq s1 Hsound1). lia. }
  rewrite Hc1. fold c. cbn [task_array set_calls set_task_array tasks_counter calls].
  rewrite Htake, Hdrop. split_and!.
  - rewrite <- list_fmap_compose.
    rewrite (list_fmap_ext (settle ∘ settle) settle)
      by (intros; apply settle_settle).
    subst s1. reflexivity.
  - done.
  - reflexivity.
  - apply pass_events_no_ready. apply Forall_fmap, Forall_true.
    intros t. apply status_settle.
Qed.

(** * The further theorems at work on the example tables *)

Lemma demo_registered_add :
  scheduler_add_task 4 200 (Some "B"%string) 8 2 5 (boot 4)
  = Ok (SCH_STATUS_OK, demo_registered).
Proof. vm_compute. reflexivity. Qed.

Lemma demo_registered_reachable : reachable 4 no_exec demo_registered.
Proof.
  eapply reachable_step; [apply reachable_boot|].
  eapply step_add. exact demo_registered_add.
Qed.

Lemma no_exec_quiet : quiet no_exec.
Proof. intros f i s. reflexivity. Qed.

Lemma scheduler_init_clears_witness :
  0 < 4 < 2 ^ 31 /\ table_ok 4 demo_sched /\
  exists s',
    scheduler_init 4 demo_sched = Ok (SCH_STATUS_OK, s') /\
    tasks_counter s' = 2 ^ 32 - 2.
Proof.
  assert (H1 : 0 < 4 < 2 ^ 31) by lia.
  assert (H2 : table_ok 4 demo_sched) by reflexivity.
  split; [exact H1|]. split; [exact H2|].
  destruct (scheduler_init_clears 4 demo_sched H1 H2)
    as (s' & Hrun & _ & _ & _ & _ & _ & Hctr).
  exists s'. split; [exact Hrun|]. apply Hctr. reflexivity.
Defined.

Lemma scheduler_delete_task_idempotent_witness :
  scheduler_delete_task 1 demo_sched
  = Ok (SCH_STATUS_OK, delete_at 1 demo_periodic demo_sched) /\
  scheduler_delete_task 1 (delete_at 1 demo_periodic demo_sched)
  = Ok (SCH_STATUS_OK, delete_at 1 demo_periodic demo_sched).
Proof.
  assert (H1 : scheduler_delete_task 1 demo_sched
               = Ok (SCH_STATUS_OK, delete_at 1 demo_periodic demo_sched))
    by (vm_compute; reflexivity).
  split; [exact H1|].
  exact (proj1 (proj2 (scheduler_delete_task_idempotent demo_sched _ 1 _ H1))).
Defined.

Lemma scheduler_add_task_outcome_witness :
  table_ok 4 demo_sched /\ 0 <= tasks_counter demo_sched /\
  exists r s',
    scheduler_add_task 4 300 (Some "C"%string) 9 1 1 demo_sched = Ok (r, s') /\
    (r = SCH_STATUS_OK <->
       tasks_counter demo_sched < 4 /\ ¬ has_task 300 (task_array demo_sched)).
Proof.
  assert (H1 : table_ok 4 demo_sched) by reflexivity.
  assert (H2 : 0 <= tasks_counter demo_sched) by (cbn; lia).
  split; [exact H1|]. split; [exact H2|].
  destruct (scheduler_add_task_outcome 4 demo_sched 300 (Some "C"%string) 9 1 1 H1 H2)
    as (r & s' & Hrun & Hiff & _).
  exists r, s'. split; [exact Hrun|exact Hiff].
Defined.

Lemma registered_twice_rejected_witness :
  table_ok 4 (boot 4) /\
  scheduler_add_task 4 200 (Some "B"%string) 8 2 5 (boot 4)
  = Ok (SCH_STATUS_OK, demo_registered) /\
  exists s2,
    scheduler_add_task 4 200 (Some "B2"%string) 9 0 0 demo_registered
    = Ok (SCH_ERROR, s2) /\
    tasks_counter s2 = tasks_counter demo_registered /\
    task_array s2 = task_array demo_registered.
Proof.
  assert (H1 : table_ok 4 (boot 4)) by reflexivity.
  split; [exact H1|]. split; [exact demo_registered_add|].
  exact (registered_twice_rejected 4 (boot 4) demo_registered 200
           (Some "B"%string) (Some "B2"%string) 8 2 5 9 0 0 H1 demo_registered_add).
Defined.

Lemma add_then_delete_witness :
  table_ok 4 (boot 4) /\ is_u32 (tasks_counter (boot 4)) /\ 200 ≠ NULL /\
  scheduler_add_task 4 200 (Some "B"%string) 8 2 5 (boot 4)
  = Ok (SCH_STATUS_OK, demo_registered) /\
  exists s2,
    scheduler_delete_task 0 demo_registered = Ok (SCH_STATUS_OK, s2) /\
    tasks_counter s2 = 0 /\
    ¬ has_task 200 (task_array s2).
Proof.
  assert (H1 : table_ok 4 (boot 4)) by reflexivity.
  assert (H2 : is_u32 (tasks_counter (boot 4))) by (unfold is_u32; cbn; lia).
  assert (H3 : 200 ≠ NULL) by discriminate.
  split; [exact H1|]. split; [exact H2|]. split; [exact H3|].
  split; [exact demo_registered_add|].
  destruct (add_then_delete 4 (boot 4) demo_registered 200 (Some "B"%string) 8 2 5
              H1 H2 H3 demo_registered_add) as (s2 & Hdel & Hc & Hno & _).
  exists s2. split; [exact Hdel|]. split; [exact Hc|exact Hno].
Defined.

Lemma ticks_only_make_ready_witness :
  table_ok 4 demo_sched /\
  task_array demo_sched !! 0%nat = Some demo_continuous /\
  exists sk tk,
    ticks 4 3 demo_sched = Ok (tt, sk) /\
    task_array sk !! 0%nat = Some tk /\
    status tk = RUN_ALWAYS.
Proof.
  assert (H1 : table_ok 4 demo_sched) by reflexivity.
  assert (H2 : task_array demo_sched !! 0%nat = Some demo_continuous) by reflexivity.
  split; [exact H1|]. split; [exact H2|].
  destruct (ticks_only_make_ready 4 3 demo_sched 0 demo_continuous H1 H2)
    as (sk & tk & Hrun & Hlk & _ & Hkeep & _).
  exists sk, tk. split; [exact Hrun|]. split; [exact Hlk|].
  apply Hkeep. left. reflexivity.
Defined.

Lemma ticks_count_down_witness :
  table_ok 4 demo_registered /\
  task_array demo_registered !! 0%nat
  = Some (mk_task 200 (Some "B"%string) 2 5 STOPPED (mk_handler 0 8)) /\
  exists sk,
    ticks 4 2 demo_registered = Ok (tt, sk) /\
    task_array sk !! 0%nat
    = Some (mk_task 200 (Some "B"%string) 0 5 STOPPED (mk_handler 0 8)).
Proof.
  assert (H1 : table_ok 4 demo_registered) by reflexivity.
  assert (H2 : task_array demo_registered !! 0%nat
               = Some (mk_task 200 (Some "B"%string) 2 5 STOPPED (mk_handler 0 8)))
    by reflexivity.
  split; [exact H1|]. split; [exact H2|].
  apply (ticks_count_down 4 2 demo_registered 0 _ H1 H2).
  - discriminate.
  - unfold is_u32. cbn. lia.
  - cbn. lia.
Defined.

Lemma periodic_task_cycle_witness :
  table_ok 4 demo_sched /\
  task_array demo_sched !! 1%nat = Some demo_periodic /\
  exists sk,
    ticks 4 6 demo_sched = Ok (tt, sk) /\
    task_array sk !! 1%nat
    = Some (mk_task 200 (Some "B"%string) 0 5 READY (mk_handler 1 8)).
Proof.
  assert (H1 : table_ok 4 demo_sched) by reflexivity.
  assert (H2 : task_array demo_sched !! 1%nat = Some demo_periodic) by reflexivity.
  split; [exact H1|]. split; [exact H2|].
  apply (periodic_task_cycle 4 5 demo_sched 1 demo_periodic H1 H2).
  - discriminate.
  - reflexivity.
  - cbn. lia.
  - discriminate.
  - discriminate.
  - cbn. lia.
Defined.

Lemma reachable_task_kinds_witness :
  0 < 4 < 2 ^ 31 /\ quiet no_exec /\ reachable 4 no_exec demo_registered /\
  (ptask (mk_task 200 (Some "B"%string) 2 5 STOPPED (mk_handler 0 8)) ≠ NULL ->
   (STOPPED = RUN_ALWAYS <-> 5 = 0)).
Proof.
  assert (H1 : 0 < 4 < 2 ^ 31) by lia.
  split; [exact H1|]. split; [exact no_exec_quiet|].
  split; [exact demo_registered_reachable|].
  exact (proj2 (proj2 (reachable_task_kinds 4 no_exec demo_registered 0 _ H1
                         no_exec_quiet demo_registered_reachable eq_refl))).
Defined.

Lemma handle_index_is_slot_witness :
  0 < 4 < 2 ^ 31 /\ quiet no_exec /\ reachable 4 no_exec demo_registered /\
  index (task_handler (mk_task 200 (Some "B"%string) 2 5 STOPPED (mk_handler 0 8)))
  = Z.of_nat 0.
Proof.
  assert (H1 : 0 < 4 < 2 ^ 31) by lia.
  split; [exact H1|]. split; [exact no_exec_quiet|].
  split; [exact demo_registered_reachable|].
  apply (handle_index_is_slot 4 no_exec demo_registered 0 _ H1
           no_exec_quiet demo_registered_reachable eq_refl).
  discriminate.
Defined.

Lemma callbacks_unique_witness :
  0 < 4 < 2 ^ 31 /\ quiet no_exec /\ reachable 4 no_exec demo_registered /\
  0%nat = 0%nat.
Proof.
  assert (H1 : 0 < 4 < 2 ^ 31) by lia.
  split; [exact H1|]. split; [exact no_exec_quiet|].
  split; [exact demo_registered_reachable|].
  apply (callbacks_unique 4 no_exec demo_registered 0 0 _ _ H1
           no_exec_quiet demo_registered_reachable eq_refl eq_refl).
  - discriminate.
  - reflexivity.
Defined.

Lemma null_callback_rejected_witness :
  0 < 4 < 2 ^ 31 /\ quiet no_exec /\ reachable 4 no_exec demo_registered /\
  exists s',
    scheduler_add_task 4 NULL (Some "N"%string) 0 0 1 demo_registered
    = Ok (SCH_ERROR, s') /\
    tasks_counter s' = tasks_counter demo_registered /\
    task_array s' = task_array demo_registered.
Proof.
  assert (H1 : 0 < 4 < 2 ^ 31) by lia.
  split; [exact H1|]. split; [exact no_exec_quiet|].
  split; [exact demo_registered_reachable|].
  exact (null_callback_rejected 4 no_exec demo_registered (Some "N"%string) 0 0 1
           H1 no_exec_quiet demo_registered_reachable).
Defined.

Lemma dispatch_pass_in_order_witness :
  0 < 4 < 2 ^ 31 /\ quiet no_exec /\ reachable 4 no_exec demo_registered /\
  tasks_counter demo_registered <= 4 /\
  exists s',
    scheduler_dispatch_task 4 no_exec demo_registered = Ok (tt, s') /\
    tasks_counter s' = tasks_counter demo_registered.
Proof.
  assert (H1 : 0 < 4 < 2 ^ 31) by lia.
  assert (H2 : tasks_counter demo_registered <= 4) by (cbn; lia).
  split; [exact H1|]. split; [exact no_exec_quiet|].
  split; [exact demo_registered_reachable|]. split; [exact H2|].
  destruct (dispatch_pass_in_order 4 no_exec demo_registered H1 no_exec_quiet
              demo_registered_reachable H2) as (s' & Hrun & _ & _ & Hc & _).
  exists s'. split; [exact Hrun|exact Hc].
Defined.

Lemma dispatch_after_reinit_out_of_bounds_witness :
  0 < 4 < 2 ^ 31 /\ quiet no_exec /\ reachable 4 no_exec demo_registered /\
  0 < active_slots (task_array demo_registered) /\
  exists s',
    scheduler_init 4 demo_registered = Ok (SCH_STATUS_OK, s') /\
    tasks_counter s' = 2 ^ 32 - 1 /\
    scheduler_dispatch_task 4 no_exec s' = Fault OutOfBounds.
Proof.
  assert (H1 : 0 < 4 < 2 ^ 31) by lia.
  assert (H2 : 0 < active_slots (task_array demo_registered)) by reflexivity.
  split; [exact H1|]. split; [exact no_exec_quiet|].
  split; [exact demo_registered_reachable|]. split; [exact H2|].
  exact (dispatch_after_reinit_out_of_bounds 4 no_exec demo_registered H1
           no_exec_quiet demo_registered_reachable H2).
Defined.

Lemma registered_task_first_run_witness :
  0 < 4 < 2 ^ 31 /\ quiet no_exec /\ reachable 4 no_exec (boot 4) /\
  is_u32 2 /\ 0 < 5 /\
  scheduler_add_task 4 200 (Some "B"%string) 8 2 5 (boot 4)
  = Ok (SCH_STATUS_OK, demo_registered) /\
  exists s2 s3,
    ticks 4 3 demo_registered = Ok (tt, s2) /\
    scheduler_dispatch_task 4 no_exec s2 = Ok (tt, s3) /\
    calls_at 0 (calls s3) = S (calls_at 0 (calls s2)).
Proof.
  assert (H1 : 0 < 4 < 2 ^ 31) by lia.
  assert (H2 : reachable 4 no_exec (boot 4)) by apply reachable_boot.
  assert (H3 : is_u32 2) by (unfold is_u32; lia).
  assert (H4 : 0 < 5) by lia.
  split; [exact H1|]. split; [exact no_exec_quiet|]. split; [exact H2|].
  split; [exact H3|]. split; [exact H4|]. split; [exact demo_registered_add|].
  destruct (registered_task_first_run 4 no_exec (boot 4) demo_registered 200
              (Some "B"%string) 8 2 5 H1 no_exec_quiet H2 H3 H4 demo_registered_add)
    as (s2 & s3 & Hticks & _ & Hrun & Hcalls & _).
  exists s2, s3. split; [exact Hticks|]. split; [exact Hrun|exact Hcalls].
Defined.

Lemma scheduler_start_after_registration_witness :
  0 < 4 < 2 ^ 31 /\ table_ok 4 (boot 4) /\
  scheduler_status (boot 4) = 0 /\
  scheduler_add_task 4 200 (Some "B"%string) 8 2 5 (boot 4)
  = Ok (SCH_STATUS_OK, demo_registered) /\
  scheduler_start 4 demo_registered = Returned SCH_STATUS_OK demo_registered.
Proof.
  assert (H1 : 0 < 4 < 2 ^ 31) by lia.
  assert (H2 : table_ok 4 (boot 4)) by reflexivity.
  assert (H3 : scheduler_status (boot 4) = 0) by reflexivity.
  split; [exact H1|]. split; [exact H2|]. split; [exact H3|].
  split; [exact demo_registered_add|].
  exact (scheduler_start_after_registration 4 (boot 4) demo_registered 200
           (Some "B"%string) 8 2 5 H1 H2 (or_introl H3) demo_registered_add).
Defined.

Lemma scheduler_start_halts_after_table_full_witness :
  quiet no_exec /\ 1 <= tasks_counter demo_full /\
  scheduler_add_task 1 300 (Some "C"%string) 9 0 1 demo_full
  = Ok (SCH_ERROR, demo_full_refused) /\
  runs 1 no_exec demo_full_refused demo_full_refused /\
  forall r' s3, scheduler_start 1 demo_full_refused ≠ Returned r' s3.
Proof.
  assert (H1 : 1 <= tasks_counter demo_full) by (cbn; lia).
  assert (H2 : scheduler_add_task 1 300 (Some "C"%string) 9 0 1 demo_full
               = Ok (SCH_ERROR, demo_full_refused)) by (vm_compute; reflexivity).
  assert (H3 : runs 1 no_exec demo_full_refused demo_full_refused)
    by apply runs_refl.
  split; [exact no_exec_quiet|]. split; [exact H1|]. split; [exact H2|].
  split; [exact H3|].
  exact (proj2 (scheduler_start_halts_after_table_full 1 no_exec demo_full
                  demo_full_refused demo_full_refused 300 (Some "C"%string)
                  9 0 1 SCH_ERROR no_exec_quiet H1 H2 H3)).
Defined.

Lemma packed_when_removing_last_witness :
  0 < 4 < 2 ^ 31 /\ quiet no_exec /\ reachable_lifo 4 no_exec demo_registered /\
  0 <= tasks_counter demo_registered <= 4 /\
  (ptask (mk_task 200 (Some "B"%string) 2 5 STOPPED (mk_handler 0 8)) ≠ NULL <->
   Z.of_nat 0 < tasks_counter demo_registered).
Proof.
  assert (H1 : 0 < 4 < 2 ^ 31) by lia.
  assert (H2 : reachable_lifo 4 no_exec demo_registered).
  { eapply lifo_add; [apply lifo_boot|]. exact demo_registered_add. }
  split; [exact H1|]. split; [exact no_exec_quiet|]. split; [exact H2|].
  exact (packed_when_removing_last 4 no_exec demo_registered 0 _ H1
           no_exec_quiet H2 eq_refl).
Defined.

Lemma dispatch_twice_witness :
  0 < 4 < 2 ^ 31 /\ quiet no_exec /\ reachable 4 no_exec demo_registered /\
  tasks_counter demo_registered <= 4 /\
  scheduler_dispatch_task 4 no_exec demo_registered = Ok (tt, demo_registered) /\
  exists s2,
    scheduler_dispatch_task 4 no_exec demo_registered = Ok (tt, s2) /\
    task_array s2 = task_array demo_registered.
Proof.
  assert (H1 : 0 < 4 < 2 ^ 31) by lia.
  assert (H2 : tasks_counter demo_registered <= 4) by (cbn; lia).
  assert (H3 : scheduler_dispatch_task 4 no_exec demo_registered
               = Ok (tt, demo_registered)) by (vm_compute; reflexivity).
  split; [exact H1|]. split; [exact no_exec_quiet|].
  split; [exact demo_registered_reachable|]. split; [exact H2|].
  split; [exact H3|].
  destruct (dispatch_twice 4 no_exec demo_registered demo_registered H1
              no_exec_quiet demo_registered_reachable H2 H3)
    as (s2 & evs & Hrun & Harr & _).
  exists s2. split; [exact Hrun|exact Harr].
Defined.

(** * Null callbacks and the dispatch pass *)





